(** * rosflight / mavrosflight: the logger interface

    A shallow embedding of [rosflight/include/rosflight/mavrosflight/logger_interface.h]
    (class template [LoggerInterface<Derived>] and class [DefaultLogger]) together
    with the part of the C library the header calls, [fprintf] on [stdout] and
    [stderr], and the properties of the logger stated over that embedding.

    Layout:
    - [Printf]: the formatted-output conversion of the C standard (ISO C99 7.19.6.1),
      as a character-by-character machine over the format string;
    - [Stdio]: the two standard streams and [fprintf];
    - [mavrosflight]: the header itself;
    - the lemmas and theorems. *)

From Stdlib Require Import Bool Ascii String List ZArith NArith Arith Lia.
From Stdlib Require Import Floats.SpecFloat.
Import ListNotations.

Local Open Scope list_scope.
Local Open Scope string_scope.

(** The line feed character, and the one-character string [std::endl] inserts. *)
Definition LF : ascii := "010"%char.
Definition endl : string := String LF EmptyString.

(** Membership of a character in a string, and its count. *)
Fixpoint char_in (c : ascii) (s : string) : bool :=
  match s with
  | EmptyString => false
  | String d s' => Ascii.eqb c d || char_in c s'
  end.

Fixpoint count_char (c : ascii) (s : string) : nat :=
  match s with
  | EmptyString => 0
  | String d s' => (if Ascii.eqb c d then 1 else 0) + count_char c s'
  end.

Fixpoint repeat_char (c : ascii) (n : nat) : string :=
  match n with
  | O => EmptyString
  | S k => String c (repeat_char c k)
  end.

(* ================================================================== *)
(** ** The C library: formatted output *)
(* ================================================================== *)

Module Printf.

(** *** Conversion specifications *)

Record flagset := mkFlags {
  fl_minus : bool;   (* '-' left-justify *)
  fl_plus  : bool;   (* '+' always a sign *)
  fl_space : bool;   (* ' ' space where no sign *)
  fl_hash  : bool;   (* '#' alternative form *)
  fl_zero  : bool    (* '0' pad with zeros *)
}.

Definition no_flags : flagset := mkFlags false false false false false.

(** A field width or precision as written: absent, a decimal number, or ['*']. *)
Inductive amount := Absent | Given (n : nat) | FromArg.

Inductive lenmod := Lnone | Lhh | Lh | Ll | Lll | Lj | Lz | Lt | LL.

(** A conversion specification as it stands in the format string. *)
Record rawspec := mkRaw {
  r_flags : flagset;
  r_width : amount;
  r_prec  : amount;
  r_len   : lenmod;
  r_conv  : ascii
}.

(** A conversion specification once ['*'] has been replaced by its [int]
    argument: [width = 0] is no minimum width, [prec = None] an omitted
    precision. *)
Record cspec := mkSpec {
  flags : flagset;
  width : nat;
  prec  : option nat;
  len   : lenmod;
  conv  : ascii
}.

(** *** Arguments

    The variadic arguments as [fprintf] receives them, after the default
    argument promotions.  The integer types are those of the LP64 data model
    (Linux on x86-64 and AArch64): [int] has 32 bits, [long] and
    [long long] 64; [size_t] and [uintmax_t] are [unsigned long], so such
    an argument is an [AULong]; [ptrdiff_t] and [intmax_t] are [long], an
    [ALong].  A [const char*] is the string of characters before
    its terminating NUL.  An argument whose rendering is not developed here
    (a [double], a [long double], a [void*]) is represented by what the
    library writes for it under each conversion specification, [None] where
    the specification does not fit its type. *)
Inductive Arg :=
| AInt (n : Z)
| AUInt (n : Z)
| ALong (n : Z)
| AULong (n : Z)
| ALLong (n : Z)
| AULLong (n : Z)
| AStr (s : string)
| AOther (show : cspec -> option string).

(** *** Character classes of the format language *)

Definition is_flag (c : ascii) : bool := char_in c "-+ #0".
Definition is_digit (c : ascii) : bool := char_in c "0123456789".
Definition is_length_char (c : ascii) : bool := char_in c "hljztL".

(** Characters that may stand between ['%'] and the conversion specifier. *)
Definition is_spec_char (c : ascii) : bool :=
  is_flag c || is_digit c || Ascii.eqb c "." || Ascii.eqb c "*" || is_length_char c.

(** The conversion specifiers. *)
Definition is_conv_char (c : ascii) : bool := char_in c "diouxXfFeEgGaAcspn%".

(** *** Reading a conversion specification *)

Definition set_flag (c : ascii) (f : flagset) : flagset :=
  if Ascii.eqb c "-" then mkFlags true (fl_plus f) (fl_space f) (fl_hash f) (fl_zero f)
  else if Ascii.eqb c "+" then mkFlags (fl_minus f) true (fl_space f) (fl_hash f) (fl_zero f)
  else if Ascii.eqb c " " then mkFlags (fl_minus f) (fl_plus f) true (fl_hash f) (fl_zero f)
  else if Ascii.eqb c "#" then mkFlags (fl_minus f) (fl_plus f) (fl_space f) true (fl_zero f)
  else if Ascii.eqb c "0" then mkFlags (fl_minus f) (fl_plus f) (fl_space f) (fl_hash f) true
  else f.

Fixpoint parse_flags (s : string) (f : flagset) : flagset * string :=
  match s with
  | String c s' => if is_flag c then parse_flags s' (set_flag c f) else (f, s)
  | EmptyString => (f, s)
  end.

Definition digit_val (c : ascii) : nat := nat_of_ascii c - 48.

Fixpoint parse_number (s : string) (acc : nat) : nat * string :=
  match s with
  | String c s' => if is_digit c then parse_number s' (10 * acc + digit_val c) else (acc, s)
  | EmptyString => (acc, s)
  end.

Definition parse_width (s : string) : amount * string :=
  match s with
  | String c s' =>
      if Ascii.eqb c "*" then (FromArg, s')
      else if is_digit c then let (n, r) := parse_number s 0 in (Given n, r)
      else (Absent, s)
  | EmptyString => (Absent, s)
  end.

(** A period alone is precision zero. *)
Definition parse_prec (s : string) : amount * string :=
  match s with
  | String c s' =>
      if Ascii.eqb c "." then
        match s' with
        | String d s'' =>
            if Ascii.eqb d "*" then (FromArg, s'')
            else let (n, r) := parse_number s' 0 in (Given n, r)
        | EmptyString => (Given 0, s')
        end
      else (Absent, s)
  | EmptyString => (Absent, s)
  end.

Definition parse_len (s : string) : lenmod * string :=
  match s with
  | String c s' =>
      if Ascii.eqb c "h" then
        match s' with
        | String d s'' => if Ascii.eqb d "h" then (Lhh, s'') else (Lh, s')
        | EmptyString => (Lh, s')
        end
      else if Ascii.eqb c "l" then
        match s' with
        | String d s'' => if Ascii.eqb d "l" then (Lll, s'') else (Ll, s')
        | EmptyString => (Ll, s')
        end
      else if Ascii.eqb c "j" then (Lj, s')
      else if Ascii.eqb c "z" then (Lz, s')
      else if Ascii.eqb c "t" then (Lt, s')
      else if Ascii.eqb c "L" then (LL, s')
      else (Lnone, s)
  | EmptyString => (Lnone, s)
  end.

(** [parse_spec mid c]: the specification whose text is ['%'], then [mid],
    then the specifier [c]: flags, width, precision and length modifier in
    this order and nothing else. *)
Definition parse_spec (mid : string) (c : ascii) : option rawspec :=
  let (f, s1) := parse_flags mid no_flags in
  let (w, s2) := parse_width s1 in
  let (p, s3) := parse_prec s2 in
  let (l, s4) := parse_len s3 in
  match s4 with
  | EmptyString => Some (mkRaw f w p l c)
  | String _ _ => None
  end.

(** *** Taking ['*'] from the arguments

    A ['*'] width or precision is an [int] argument, taken before the value
    to convert, the width first.  A negative width is a ['-'] flag and a
    positive width; a negative precision is an omitted precision. *)
Definition take_int (args : list Arg) : option (Z * list Arg) :=
  match args with
  | AInt n :: rest => Some (n, rest)
  | _ => None
  end.

Definition resolve_width (f : flagset) (w : amount) (args : list Arg)
  : option (flagset * nat * list Arg) :=
  match w with
  | Absent => Some (f, 0, args)
  | Given n => Some (f, n, args)
  | FromArg =>
      match take_int args with
      | Some (n, rest) =>
          if (n <? 0)%Z then Some (set_flag "-" f, Z.abs_nat n, rest)
          else Some (f, Z.to_nat n, rest)
      | None => None
      end
  end.

Definition resolve_prec (p : amount) (args : list Arg) : option (option nat * list Arg) :=
  match p with
  | Absent => Some (None, args)
  | Given n => Some (Some n, args)
  | FromArg =>
      match take_int args with
      | Some (n, rest) =>
          if (n <? 0)%Z then Some (None, rest) else Some (Some (Z.to_nat n), rest)
      | None => None
      end
  end.

Definition resolve (r : rawspec) (args : list Arg) : option (cspec * list Arg) :=
  match resolve_width (r_flags r) (r_width r) args with
  | Some (f, w, args1) =>
      match resolve_prec (r_prec r) args1 with
      | Some (p, args2) => Some (mkSpec f w p (r_len r) (r_conv r), args2)
      | None => None
      end
  | None => None
  end.

(** *** Rendering one value *)

Definition digit_char (upper : bool) (d : N) : ascii :=
  if (d <? 10)%N then ascii_of_N (48 + d)
  else ascii_of_N ((if upper then 55 else 87) + d).

(** The digits of [n] in [base], most significant first; no digit for zero. *)
Fixpoint digits_loop (fuel : nat) (base : N) (upper : bool) (n : N) (acc : string) : string :=
  match fuel with
  | O => acc
  | S k =>
      if (n =? 0)%N then acc
      else digits_loop k base upper (n / base)%N (String (digit_char upper (n mod base)%N) acc)
  end.

Definition digits (base : N) (upper : bool) (n : N) : string :=
  digits_loop (N.to_nat (N.size n)) base upper n EmptyString.

Definition pad (left_justify : bool) (w : nat) (s : string) : string :=
  let fill := repeat_char " " (w - String.length s) in
  if left_justify then s ++ fill else fill ++ s.

Definition starts_with_zero (s : string) : bool :=
  match s with
  | String c _ => Ascii.eqb c "0"
  | EmptyString => false
  end.

(** An integer conversion: [sign] is the sign text, [n] the magnitude. *)
Definition integer_text (sp : cspec) (sign : string) (base : N) (upper : bool) (n : N)
  : string :=
  let f := flags sp in
  let ds := digits base upper n in
  let p := match prec sp with Some p => p | None => 1 end in
  let ds := repeat_char "0" (p - String.length ds) ++ ds in
  let ds := if fl_hash f && (base =? 8)%N && negb (starts_with_zero ds)
            then String "0" ds else ds in
  let lead := if fl_hash f && (base =? 16)%N && negb (n =? 0)%N
              then sign ++ (if upper then "0X" else "0x") else sign in
  match prec sp with
  | None =>
      if fl_zero f && negb (fl_minus f)
      then lead ++ repeat_char "0" (width sp - String.length lead - String.length ds) ++ ds
      else pad (fl_minus f) (width sp) (lead ++ ds)
  | Some _ => pad (fl_minus f) (width sp) (lead ++ ds)
  end.

Definition in_range (lo hi n : Z) : bool := ((lo <=? n) && (n <=? hi))%Z.

Definition INT_MAX : Z := 2147483647.
Definition LONG_MAX : Z := 9223372036854775807.

(** The integer type a length modifier names, by its rank: [hh] a
    character type, [h] a short, none [int], [l] [long], [ll] [long long];
    [j], [z] and [t] name [intmax_t], [size_t] and [ptrdiff_t], of the rank
    of [long].  [L] goes with no integer conversion. *)
Inductive rank := RChar | RShort | RInt | RLong | RLLong.

Definition rank_of (l : lenmod) : option rank :=
  match l with
  | Lhh => Some RChar
  | Lh => Some RShort
  | Lnone => Some RInt
  | Ll | Lj | Lz | Lt => Some RLong
  | Lll => Some RLLong
  | LL => None
  end.

(** The value of an argument read at a rank as a signed or as an unsigned
    type.  Character and short values arrive promoted to [int].  An
    argument of the other signedness is read when its value is one of both
    types (ISO C 7.15.1.1); an argument of another rank has no value. *)
Definition as_signed (rk : rank) (a : Arg) : option Z :=
  match rk, a with
  | (RChar | RShort | RInt), AInt n => Some n
  | (RChar | RShort | RInt), AUInt n => if in_range 0 INT_MAX n then Some n else None
  | RLong, ALong n => Some n
  | RLong, AULong n => if in_range 0 LONG_MAX n then Some n else None
  | RLLong, ALLong n => Some n
  | RLLong, AULLong n => if in_range 0 LONG_MAX n then Some n else None
  | _, _ => None
  end.

Definition as_unsigned (rk : rank) (a : Arg) : option Z :=
  match rk, a with
  | (RChar | RShort), AInt n => Some n
  | RInt, AInt n => if (0 <=? n)%Z then Some n else None
  | (RChar | RShort | RInt), AUInt n => if (0 <=? n)%Z then Some n else None
  | RLong, AULong n => if (0 <=? n)%Z then Some n else None
  | RLong, ALong n => if (0 <=? n)%Z then Some n else None
  | RLLong, AULLong n => if (0 <=? n)%Z then Some n else None
  | RLLong, ALLong n => if (0 <=? n)%Z then Some n else None
  | _, _ => None
  end.

(** Conversion to a type of [bits] bits, as the library does for [hh] and
    [h] before it prints. *)
Definition wrap_unsigned (bits : Z) (n : Z) : Z := (n mod 2 ^ bits)%Z.

Definition wrap_signed (bits : Z) (n : Z) : Z :=
  let m := (n mod 2 ^ bits)%Z in
  if (m <? 2 ^ (bits - 1))%Z then m else (m - 2 ^ bits)%Z.

(** The value an integer conversion prints, by length modifier and
    argument. *)
Definition signed_value (l : lenmod) (a : Arg) : option Z :=
  match rank_of l with
  | Some rk =>
      match as_signed rk a with
      | Some n =>
          Some (match rk with
                | RChar => wrap_signed 8 n
                | RShort => wrap_signed 16 n
                | _ => n
                end)
      | None => None
      end
  | None => None
  end.

Definition unsigned_value (l : lenmod) (a : Arg) : option N :=
  match rank_of l with
  | Some rk =>
      match as_unsigned rk a with
      | Some n =>
          Some (Z.to_N (match rk with
                        | RChar => wrap_unsigned 8 n
                        | RShort => wrap_unsigned 16 n
                        | _ => n
                        end))
      | None => None
      end
  | None => None
  end.

Definition sign_text (f : flagset) (n : Z) : string :=
  if (n <? 0)%Z then "-" else if fl_plus f then "+" else if fl_space f then " " else "".

Definition render_signed (sp : cspec) (a : Arg) : option string :=
  if fl_hash (flags sp) then None
  else match signed_value (len sp) a with
       | Some n => Some (integer_text sp (sign_text (flags sp) n) 10 false (Z.abs_N n))
       | None => None
       end.

Definition render_unsigned (sp : cspec) (base : N) (upper : bool) (a : Arg) : option string :=
  if fl_hash (flags sp) && (base =? 10)%N then None
  else match unsigned_value (len sp) a with
       | Some n => Some (integer_text sp "" base upper n)
       | None => None
       end.

(** [%c]: the [int] argument converted to [unsigned char]. *)
Definition render_char (sp : cspec) (a : Arg) : option string :=
  if fl_hash (flags sp) || fl_zero (flags sp) then None
  else match prec sp, len sp, a with
       | None, Lnone, AInt n =>
           Some (pad (fl_minus (flags sp)) (width sp)
                     (String (ascii_of_N (Z.to_N (n mod 256))) EmptyString))
       | _, _, _ => None
       end.

(** [%s]: at most [prec] characters of the string. *)
Definition render_string (sp : cspec) (a : Arg) : option string :=
  if fl_hash (flags sp) || fl_zero (flags sp) then None
  else match len sp, a with
       | Lnone, AStr s =>
           let s := match prec sp with
                    | Some p => String.substring 0 p s
                    | None => s
                    end in
           Some (pad (fl_minus (flags sp)) (width sp) s)
       | _, _ => None
       end.

Definition render_other (sp : cspec) (a : Arg) : option string :=
  match a with
  | AOther show => show sp
  | _ => None
  end.

(** The text of one conversion; [None] where the standard leaves the
    behaviour undefined (a flag, precision, length modifier or argument type
    that does not fit the specifier), for [%n], which stores through a
    pointer, and for wide characters ([%lc], [%ls]). *)
Definition render (sp : cspec) (a : Arg) : option string :=
  let c := conv sp in
  if Ascii.eqb c "d" || Ascii.eqb c "i" then render_signed sp a
  else if Ascii.eqb c "u" then render_unsigned sp 10 false a
  else if Ascii.eqb c "o" then render_unsigned sp 8 false a
  else if Ascii.eqb c "x" then render_unsigned sp 16 false a
  else if Ascii.eqb c "X" then render_unsigned sp 16 true a
  else if Ascii.eqb c "c" then render_char sp a
  else if Ascii.eqb c "s" then render_string sp a
  else if char_in c "fFeEgGaAp" then render_other sp a
  else None.

(** One conversion specification against the remaining arguments: the text
    written and the arguments left. *)
Definition convert (r : rawspec) (args : list Arg) : option (string * list Arg) :=
  match resolve r args with
  | Some (sp, a :: rest) =>
      match render sp a with
      | Some txt => Some (txt, rest)
      | None => None
      end
  | _ => None
  end.

(** *** The machine over the format string

    The format is read character by character.  Ordinary characters are
    copied; ['%'] opens a conversion specification, whose characters are
    collected up to the conversion specifier.  What is written comes out as
    chunks, so that copied characters and converted arguments can be told
    apart. *)
Inductive chunk :=
| Ordinary (c : ascii)
| Converted (s : string).

Inductive mode :=
| Copying
| InSpec (mid : string).

Definition pstate : Type := mode * list Arg.

Definition step (st : pstate) (c : ascii) : option (list chunk * pstate) :=
  let (m, args) := st in
  match m with
  | Copying =>
      if Ascii.eqb c "%" then Some ([], (InSpec EmptyString, args))
      else Some ([Ordinary c], (Copying, args))
  | InSpec mid =>
      if Ascii.eqb c "%" then
        (* the complete specification shall be %% *)
        match mid with
        | EmptyString => Some ([Ordinary "%"], (Copying, args))
        | String _ _ => None
        end
      else if is_conv_char c then
        match parse_spec mid c with
        | Some r =>
            match convert r args with
            | Some (txt, rest) => Some ([Converted txt], (Copying, rest))
            | None => None
            end
        | None => None
        end
      else if is_spec_char c then Some ([], (InSpec (mid ++ String c EmptyString), args))
      else None
  end.

Fixpoint run (fmt : string) (st : pstate) : option (list chunk * pstate) :=
  match fmt with
  | EmptyString => Some ([], st)
  | String c fmt' =>
      match step st c with
      | Some (o, st') =>
          match run fmt' st' with
          | Some (o', st'') => Some ((o ++ o')%list, st'')
          | None => None
          end
      | None => None
      end
  end.

Definition chunk_text (k : chunk) : string :=
  match k with
  | Ordinary c => String c EmptyString
  | Converted s => s
  end.

Fixpoint text_of (o : list chunk) : string :=
  match o with
  | [] => EmptyString
  | k :: o' => chunk_text k ++ text_of o'
  end.

(** The chunks [fprintf] writes for [fmt] with [args].  The format must not
    end inside a conversion specification; arguments left over when the
    format is exhausted are ignored. *)
Definition format_chunks (fmt : string) (args : list Arg) : option (list chunk) :=
  match run fmt (Copying, args) with
  | Some (o, (Copying, _)) => Some o
  | _ => None
  end.

(** The characters [fprintf] writes.  [None]: the behaviour is undefined, or
    the format uses a conversion that [render] does not develop. *)
Definition formatted (fmt : string) (args : list Arg) : option string :=
  match format_chunks fmt args with
  | Some o => Some (text_of o)
  | None => None
  end.

(** The texts of the converted arguments, in order. *)
Fixpoint converted (o : list chunk) : list string :=
  match o with
  | [] => []
  | Ordinary _ :: o' => converted o'
  | Converted s :: o' => s :: converted o'
  end.

End Printf.

Import Printf.

(* ================================================================== *)
(** ** The C library: the standard streams *)
(* ================================================================== *)

Module Stdio.

(** The two [FILE*] the header writes to. *)
Inductive FILE := stdout | stderr.

(** A stream: the characters it has received, whether it has stopped
    accepting output (closed, or in error), and the value [fprintf] returns
    when a text is handed to it: the number of characters transmitted, or a
    negative value for an output error.  Whether and when an error shows
    (at the call, or when a buffer is flushed later) and the limits of [int]
    are the stream's affair, so the value is whatever the stream reports. *)
Record stream := mkStream {
  written : string;
  failed  : bool;
  reports : string -> Z
}.

Record world := mkWorld {
  on_stdout : stream;
  on_stderr : stream
}.

Definition stream_of (fs : FILE) (w : world) : stream :=
  match fs with
  | stdout => on_stdout w
  | stderr => on_stderr w
  end.

Definition set_stream (fs : FILE) (s : stream) (w : world) : world :=
  match fs with
  | stdout => mkWorld s (on_stderr w)
  | stderr => mkWorld (on_stdout w) s
  end.

(** Transmitting [text] to a stream: the stream receives the text, unless
    it has failed, and reports a value. *)
Definition transmit (fs : FILE) (text : string) (w : world) : Z * world :=
  let s := stream_of fs w in
  if failed s then (reports s text, w)
  else (reports s text,
        set_stream fs (mkStream (written s ++ text) false (reports s)) w).

(** [int fprintf(FILE*, const char*, ...)]: the result is the value
    returned and the streams after the call; [None] where [formatted] is. *)
Definition fprintf (fs : FILE) (fmt : string) (args : list Arg) (w : world)
  : option (Z * world) :=
  match formatted fmt args with
  | Some text => Some (transmit fs text w)
  | None => None
  end.

End Stdio.

Import Stdio.

(* ================================================================== *)
(** ** logger_interface.h *)
(* ================================================================== *)

Module mavrosflight.

(** A member function runs on the object it is called on and on the
    streams; it returns a value, or its behaviour is undefined. *)
Record state (D : Type) := mkState {
  this : D;
  io   : world
}.
Arguments mkState {D} _ _.
Arguments this {D} _.
Arguments io {D} _.

Definition M (D A : Type) : Type := state D -> option (A * state D).

Definition ret {D A : Type} (a : A) : M D A := fun st => Some (a, st).

Definition bind {D A B : Type} (m : M D A) (k : A -> M D B) : M D B :=
  fun st =>
    match m st with
    | Some (a, st') => k a st'
    | None => None
    end.

Notation "m ;;; k" := (bind m (fun _ => k))
  (at level 61, right associativity).

(** A call into the C library: it sees the streams only. *)
Definition libc {D A : Type} (f : world -> option (A * world)) : M D A :=
  fun st =>
    match f (io st) with
    | Some (a, w) => Some (a, mkState (this st) w)
    | None => None
    end.

(** The C type [float] of the throttle period. *)
Definition c_float : Type := spec_float.

(** [std::stringstream]: the characters inserted so far.  [std::endl] inserts
    a line feed and flushes, which changes nothing in a string stream. *)
Definition stringstream : Type := string.
Definition stringstream_new : stringstream := EmptyString.
Definition insert (ss : stringstream) (s : string) : stringstream := ss ++ s.
Definition std_endl (ss : stringstream) : stringstream := ss ++ endl.
Definition str (ss : stringstream) : string := ss.
Notation "ss << s" := (insert ss s) (at level 55, left associativity).

(** What [LoggerInterface<Derived>] calls on [Derived]. *)
Class Logger (Derived : Type) := {
  derived_debug          : string -> list Arg -> M Derived unit;
  derived_debug_throttle : c_float -> string -> list Arg -> M Derived unit;
  derived_info           : string -> list Arg -> M Derived unit;
  derived_info_throttle  : c_float -> string -> list Arg -> M Derived unit;
  derived_warn           : string -> list Arg -> M Derived unit;
  derived_warn_throttle  : c_float -> string -> list Arg -> M Derived unit;
  derived_error          : string -> list Arg -> M Derived unit;
  derived_error_throttle : c_float -> string -> list Arg -> M Derived unit;
  derived_fatal          : string -> list Arg -> M Derived unit;
  derived_fatal_throttle : c_float -> string -> list Arg -> M Derived unit
}.

(** [template <typename Derived> class LoggerInterface]: each member casts
    [*this] to [Derived&] and calls the member of the same name. *)
Module LoggerInterface.
Section Interface.
Context {Derived : Type} `{Logger Derived}.

Definition debug (format : string) (args : list Arg) : M Derived unit :=
  derived_debug format args.
Definition debug_throttle (period : c_float) (format : string) (args : list Arg)
  : M Derived unit :=
  derived_debug_throttle period format args.

Definition info (format : string) (args : list Arg) : M Derived unit :=
  derived_info format args.
Definition info_throttle (period : c_float) (format : string) (args : list Arg)
  : M Derived unit :=
  derived_info_throttle period format args.

Definition warn (format : string) (args : list Arg) : M Derived unit :=
  derived_warn format args.
Definition warn_throttle (period : c_float) (format : string) (args : list Arg)
  : M Derived unit :=
  derived_warn_throttle period format args.

Definition error (format : string) (args : list Arg) : M Derived unit :=
  derived_error format args.
Definition error_throttle (period : c_float) (format : string) (args : list Arg)
  : M Derived unit :=
  derived_error_throttle period format args.

Definition fatal (format : string) (args : list Arg) : M Derived unit :=
  derived_fatal format args.
Definition fatal_throttle (period : c_float) (format : string) (args : list Arg)
  : M Derived unit :=
  derived_fatal_throttle period format args.
End Interface.
End LoggerInterface.

(** [class DefaultLogger]: it has no data member. *)
Record DefaultLogger : Type := mkDefaultLogger {}.

Module DefaultLogger.

Definition _log (fs : FILE) (name : string) (format : string) (args : list Arg)
  : M DefaultLogger unit :=
  let ss := stringstream_new in
  let ss := std_endl (ss << "[mavrosflight][" << name << "]: " << format) in
  libc (fprintf fs (str ss) args) ;;; ret tt.

Definition debug (format : string) (args : list Arg) : M DefaultLogger unit :=
  _log stdout "DEBUG" format args.
Definition debug_throttle (period : c_float) (format : string) (args : list Arg)
  : M DefaultLogger unit :=
  debug format args.

Definition info (format : string) (args : list Arg) : M DefaultLogger unit :=
  _log stdout "INFO" format args.
Definition info_throttle (period : c_float) (format : string) (args : list Arg)
  : M DefaultLogger unit :=
  info format args.

Definition warn (format : string) (args : list Arg) : M DefaultLogger unit :=
  _log stderr "WARN" format args.
Definition warn_throttle (period : c_float) (format : string) (args : list Arg)
  : M DefaultLogger unit :=
  warn format args.

Definition error (format : string) (args : list Arg) : M DefaultLogger unit :=
  _log stderr "ERROR" format args.
Definition error_throttle (period : c_float) (format : string) (args : list Arg)
  : M DefaultLogger unit :=
  error format args.

Definition fatal (format : string) (args : list Arg) : M DefaultLogger unit :=
  _log stderr "FATAL" format args.
Definition fatal_throttle (period : c_float) (format : string) (args : list Arg)
  : M DefaultLogger unit :=
  fatal format args.

End DefaultLogger.

(** [class DefaultLogger : public LoggerInterface<DefaultLogger>] *)
#[export] Instance DefaultLogger_Logger : Logger DefaultLogger := {|
  derived_debug          := DefaultLogger.debug;
  derived_debug_throttle := DefaultLogger.debug_throttle;
  derived_info           := DefaultLogger.info;
  derived_info_throttle  := DefaultLogger.info_throttle;
  derived_warn           := DefaultLogger.warn;
  derived_warn_throttle  := DefaultLogger.warn_throttle;
  derived_error          := DefaultLogger.error;
  derived_error_throttle := DefaultLogger.error_throttle;
  derived_fatal          := DefaultLogger.fatal;
  derived_fatal_throttle := DefaultLogger.fatal_throttle
|}.

End mavrosflight.

Import mavrosflight.

(* ================================================================== *)
(** ** Vocabulary of the statements *)
(* ================================================================== *)

(** The five severity levels, and the two entry points of each. *)
Inductive Level := Debug | Info | Warn | Error | Fatal.

Inductive variant :=
| Immediate
| Throttled (period : c_float).

(** The level names and streams as the specification lists them. *)
Definition level_name (L : Level) : string :=
  match L with
  | Debug => "DEBUG"
  | Info => "INFO"
  | Warn => "WARN"
  | Error => "ERROR"
  | Fatal => "FATAL"
  end.

Definition level_stream (L : Level) : FILE :=
  match L with
  | Debug | Info => stdout
  | Warn | Error | Fatal => stderr
  end.

Definition other_stream (fs : FILE) : FILE :=
  match fs with
  | stdout => stderr
  | stderr => stdout
  end.

Definition tag (L : Level) : string := "[mavrosflight][" ++ level_name L ++ "]: ".

(** A call of a member of [DefaultLogger], by level and entry point. *)
Definition direct (L : Level) (v : variant) : string -> list Arg -> M DefaultLogger unit :=
  match L, v with
  | Debug, Immediate => DefaultLogger.debug
  | Debug, Throttled p => DefaultLogger.debug_throttle p
  | Info, Immediate => DefaultLogger.info
  | Info, Throttled p => DefaultLogger.info_throttle p
  | Warn, Immediate => DefaultLogger.warn
  | Warn, Throttled p => DefaultLogger.warn_throttle p
  | Error, Immediate => DefaultLogger.error
  | Error, Throttled p => DefaultLogger.error_throttle p
  | Fatal, Immediate => DefaultLogger.fatal
  | Fatal, Throttled p => DefaultLogger.fatal_throttle p
  end.

(** A call of a member of [LoggerInterface<Derived>], and the member of
    [Derived] of the same name. *)
Definition interface_call {Derived : Type} `{Logger Derived} (L : Level) (v : variant)
  : string -> list Arg -> M Derived unit :=
  match L, v with
  | Debug, Immediate => LoggerInterface.debug
  | Debug, Throttled p => LoggerInterface.debug_throttle p
  | Info, Immediate => LoggerInterface.info
  | Info, Throttled p => LoggerInterface.info_throttle p
  | Warn, Immediate => LoggerInterface.warn
  | Warn, Throttled p => LoggerInterface.warn_throttle p
  | Error, Immediate => LoggerInterface.error
  | Error, Throttled p => LoggerInterface.error_throttle p
  | Fatal, Immediate => LoggerInterface.fatal
  | Fatal, Throttled p => LoggerInterface.fatal_throttle p
  end.

Definition derived_call {Derived : Type} `{Logger Derived} (L : Level) (v : variant)
  : string -> list Arg -> M Derived unit :=
  match L, v with
  | Debug, Immediate => derived_debug
  | Debug, Throttled p => derived_debug_throttle p
  | Info, Immediate => derived_info
  | Info, Throttled p => derived_info_throttle p
  | Warn, Immediate => derived_warn
  | Warn, Throttled p => derived_warn_throttle p
  | Error, Immediate => derived_error
  | Error, Throttled p => derived_error_throttle p
  | Fatal, Immediate => derived_fatal
  | Fatal, Throttled p => derived_fatal_throttle p
  end.

(** The call made on a [LoggerInterface<DefaultLogger>]. *)
Definition via_interface (L : Level) (v : variant)
  : string -> list Arg -> M DefaultLogger unit :=
  interface_call (Derived := DefaultLogger) L v.

(** The state after [text] has been handed to stream [fs]. *)
Definition emit {D : Type} (fs : FILE) (text : string) (st : state D) : state D :=
  mkState (this st) (snd (transmit fs text (io st))).

(** The period 1.0f. *)
Definition one_second : c_float := S754_finite false 8388608 (-23).

(** Two concrete states: both streams open and empty, reporting the number
    of characters; the same with [stderr] closed and reporting an error. *)
Definition counting (text : string) : Z := Z.of_nat (String.length text).

Definition st_open : state DefaultLogger :=
  mkState mkDefaultLogger
    (mkWorld (mkStream "" false counting) (mkStream "" false counting)).

Definition st_stderr_closed : state DefaultLogger :=
  mkState mkDefaultLogger
    (mkWorld (mkStream "" false counting) (mkStream "" true (fun _ => (-1)%Z))).

(** A template seen as its directives: stretches of ordinary characters and
    placeholders, a placeholder being ['%'], the characters [mid] and the
    conversion specifier [c]. *)
Inductive directive :=
| Text (s : string)
| Placeholder (mid : string) (c : ascii).

Definition directive_text (d : directive) : string :=
  match d with
  | Text s => s
  | Placeholder mid c => String "%" (mid ++ String c EmptyString)
  end.

Fixpoint template_of (ds : list directive) : string :=
  match ds with
  | [] => EmptyString
  | d :: ds' => directive_text d ++ template_of ds'
  end.

Fixpoint all_chars (p : ascii -> bool) (s : string) : bool :=
  match s with
  | EmptyString => true
  | String c s' => p c && all_chars p s'
  end.

Definition well_formed (d : directive) : bool :=
  match d with
  | Text s => negb (char_in "%" s)
  | Placeholder mid c =>
      all_chars is_spec_char mid && is_conv_char c && negb (Ascii.eqb c "%")
  end.

(** Substitution in positional order: the directives are taken from left to
    right, each placeholder converts the front of the arguments still
    unused and leaves the rest to the placeholders after it. *)
Fixpoint substitute (ds : list directive) (args : list Arg) : option string :=
  match ds with
  | [] => Some EmptyString
  | Text s :: ds' =>
      match substitute ds' args with
      | Some out => Some (s ++ out)
      | None => None
      end
  | Placeholder mid c :: ds' =>
      match parse_spec mid c with
      | Some r =>
          match convert r args with
          | Some (txt, rest) =>
              match substitute ds' rest with
              | Some out => Some (txt ++ out)
              | None => None
              end
          | None => None
          end
      | None => None
      end
  end.

(** *** Sequences of calls

    The code of a caller: one call of a member after another on the same
    logger. *)
Record call := mkCall {
  c_level   : Level;
  c_variant : variant;
  c_format  : string;
  c_args    : list Arg
}.

Fixpoint session (cs : list call) : M DefaultLogger unit :=
  match cs with
  | [] => ret tt
  | c :: cs' =>
      direct (c_level c) (c_variant c) (c_format c) (c_args c) ;;; session cs'
  end.

Definition same_stream (a b : FILE) : bool :=
  match a, b with
  | stdout, stdout | stderr, stderr => true
  | _, _ => false
  end.

(** The message of one call, where its formatting is defined. *)
Definition message (c : call) : option string :=
  match formatted (c_format c) (c_args c) with
  | Some body => Some (tag (c_level c) ++ body ++ endl)
  | None => None
  end.

(** The calls of a sequence whose level writes to [fs], and the text they
    send there: their messages one after the other. *)
Definition addressed_to (fs : FILE) (cs : list call) : list call :=
  filter (fun c => same_stream (level_stream (c_level c)) fs) cs.

Fixpoint transcript (fs : FILE) (cs : list call) : option string :=
  match cs with
  | [] => Some EmptyString
  | c :: cs' =>
      match message c, transcript fs cs' with
      | Some m, Some t =>
          Some (if same_stream (level_stream (c_level c)) fs then m ++ t else t)
      | _, _ => None
      end
  end.

(** A call whose template and converted arguments hold no line feed. *)
Definition line_free (c : call) : bool :=
  match format_chunks (c_format c) (c_args c) with
  | Some o =>
      negb (char_in LF (c_format c)) &&
      forallb (fun s => negb (char_in LF s)) (converted o)
  | None => false
  end.

(** Writing a message in three parts: the tag, the template formatted with
    the arguments, the line feed, each by its own [fprintf]. *)
Definition write_in_parts (fs : FILE) (pre fmt : string) (args : list Arg)
  : M DefaultLogger unit :=
  libc (fprintf fs pre []) ;;;
  libc (fprintf fs fmt args) ;;;
  libc (fprintf fs endl []) ;;;
  ret tt.

Definition is_placeholder (d : directive) : bool :=
  match d with
  | Text _ => false
  | Placeholder _ _ => true
  end.

(** *** Substitution by position

    The same substitution with the place of every argument written out: the
    arguments are numbered from 0 in the order of the call; a placeholder
    reached when [i] arguments are used takes a ['*'] width from argument
    [i], a ['*'] precision from the next one, and converts the argument
    after those; the placeholder that follows starts at the argument after
    that. *)
Definition int_at (args : list Arg) (i : nat) : option Z :=
  match nth_error args i with
  | Some (AInt n) => Some n
  | _ => None
  end.

Definition star_count (a : amount) : nat :=
  match a with
  | FromArg => 1
  | _ => 0
  end.

Definition width_at (f : flagset) (w : amount) (args : list Arg) (i : nat)
  : option (flagset * nat) :=
  match w with
  | Absent => Some (f, 0)
  | Given n => Some (f, n)
  | FromArg =>
      match int_at args i with
      | Some n =>
          if (n <? 0)%Z then Some (set_flag "-" f, Z.abs_nat n)
          else Some (f, Z.to_nat n)
      | None => None
      end
  end.

Definition prec_at (p : amount) (args : list Arg) (i : nat) : option (option nat) :=
  match p with
  | Absent => Some None
  | Given n => Some (Some n)
  | FromArg =>
      match int_at args i with
      | Some n => if (n <? 0)%Z then Some None else Some (Some (Z.to_nat n))
      | None => None
      end
  end.

Definition spec_at (r : rawspec) (args : list Arg) (i : nat) : option cspec :=
  match width_at (r_flags r) (r_width r) args i with
  | Some (f, w) =>
      match prec_at (r_prec r) args (i + star_count (r_width r)) with
      | Some p => Some (mkSpec f w p (r_len r) (r_conv r))
      | None => None
      end
  | None => None
  end.

Fixpoint positional (ds : list directive) (args : list Arg) (i : nat) : option string :=
  match ds with
  | [] => Some EmptyString
  | Text s :: ds' =>
      match positional ds' args i with
      | Some out => Some (s ++ out)
      | None => None
      end
  | Placeholder mid c :: ds' =>
      match parse_spec mid c with
      | Some r =>
          let k := i + star_count (r_width r) + star_count (r_prec r) in
          match spec_at r args i, nth_error args k with
          | Some sp, Some a =>
              match render sp a with
              | Some txt =>
                  match positional ds' args (S k) with
                  | Some out => Some (txt ++ out)
                  | None => None
                  end
              | None => None
              end
          | _, _ => None
          end
      | None => None
      end
  end.

(** A template without placeholder: every ['%'] in it is one of a pair
    ["%%"].  [unescape] gives the text with one ['%'] for each pair, and
    nothing for a template with another ['%']. *)
Fixpoint unescape (s : string) : option string :=
  match s with
  | EmptyString => Some EmptyString
  | String c s' =>
      if Ascii.eqb c "%" then
        match s' with
        | String d s'' =>
            if Ascii.eqb d "%" then
              match unescape s'' with
              | Some t => Some (String "%" t)
              | None => None
              end
            else None
        | EmptyString => None
        end
      else
        match unescape s' with
        | Some t => Some (String c t)
        | None => None
        end
  end.

(** Reading digits back: the value of a digit character and of a string of
    digits in [base]. *)
Definition digit_value (c : ascii) : N :=
  let n := N_of_ascii c in
  if (n <? 58)%N then (n - 48)%N
  else if (n <? 91)%N then (n - 55)%N
  else (n - 87)%N.

Fixpoint number_of (base : N) (s : string) (acc : N) : N :=
  match s with
  | EmptyString => acc
  | String c s' => number_of base s' (acc * base + digit_value c)%N
  end.

(** The chunks of a stretch of copied characters. *)
Fixpoint ordinary (s : string) : list chunk :=
  match s with
  | EmptyString => []
  | String c s' => Ordinary c :: ordinary s'
  end.

(* ================================================================== *)
(** ** Strings *)
(* ================================================================== *)

Lemma append_nil_r (s : string) : s ++ "" = s.
Proof. induction s as [|c s IH]; simpl; [reflexivity | now rewrite IH]. Qed.

Lemma append_assoc (a b c : string) : (a ++ b) ++ c = a ++ (b ++ c).
Proof. induction a as [|x a IH]; simpl; [reflexivity | now rewrite IH]. Qed.

Lemma char_in_app (c : ascii) (a b : string) :
  char_in c (a ++ b) = char_in c a || char_in c b.
Proof.
  induction a as [|x a IH]; simpl; [reflexivity |].
  now rewrite IH, orb_assoc.
Qed.

Lemma count_char_app (c : ascii) (a b : string) :
  count_char c (a ++ b) = count_char c a + count_char c b.
Proof.
  induction a as [|x a IH]; simpl; [reflexivity |].
  rewrite IH. lia.
Qed.

Lemma count_char_absent (c : ascii) (s : string) :
  char_in c s = false -> count_char c s = 0.
Proof.
  induction s as [|x s IH]; simpl; [reflexivity |].
  intros H. apply orb_false_iff in H as [Hx Hs].
  rewrite Hx. simpl. auto.
Qed.

(* ================================================================== *)
(** ** The format machine *)
(* ================================================================== *)

Lemma text_of_app (o1 o2 : list chunk) :
  text_of (o1 ++ o2)%list = text_of o1 ++ text_of o2.
Proof.
  induction o1 as [|k o1 IH]; simpl; [reflexivity |].
  now rewrite IH, append_assoc.
Qed.

Lemma converted_app (o1 o2 : list chunk) :
  converted (o1 ++ o2)%list = (converted o1 ++ converted o2)%list.
Proof.
  induction o1 as [|[c|s] o1 IH]; simpl; [reflexivity | assumption | now rewrite IH].
Qed.

(** Running a concatenation is running its parts in sequence. *)
Lemma run_app (a b : string) (st : pstate) :
  run (a ++ b) st =
  match run a st with
  | Some (o1, st1) =>
      match run b st1 with
      | Some (o2, st2) => Some ((o1 ++ o2)%list, st2)
      | None => None
      end
  | None => None
  end.
Proof.
  revert st. induction a as [|c a IH]; intros st; simpl.
  - destruct (run b st) as [[o2 st2]|]; reflexivity.
  - destruct (step st c) as [[o st']|]; [|reflexivity].
    rewrite IH.
    destruct (run a st') as [[o1 st1]|]; [|reflexivity].
    destruct (run b st1) as [[o2 st2]|]; [|reflexivity].
    now rewrite app_assoc.
Qed.

Lemma text_of_ordinary (s : string) : text_of (ordinary s) = s.
Proof. induction s as [|c s IH]; simpl; [reflexivity | now rewrite IH]. Qed.

Lemma converted_ordinary (s : string) : converted (ordinary s) = [].
Proof. induction s as [|c s IH]; simpl; auto. Qed.

(** Text without ['%'] is copied and uses no argument. *)
Lemma run_plain (s : string) (args : list Arg) :
  char_in "%" s = false ->
  run s (Copying, args) = Some (ordinary s, (Copying, args)).
Proof.
  induction s as [|c s IH]; intros H; [reflexivity |].
  cbn [char_in] in H. apply orb_false_iff in H as [Hc Hs].
  rewrite Ascii.eqb_sym in Hc.
  cbn [run step ordinary]. rewrite Hc, (IH Hs). reflexivity.
Qed.

(** The line feed ends the format only outside a conversion specification. *)
Lemma run_endl (m : mode) (args : list Arg) :
  run endl (m, args) =
  match m with
  | Copying => Some ([Ordinary LF], (Copying, args))
  | InSpec _ => None
  end.
Proof. destruct m; reflexivity. Qed.

(** A format framed by a prefix without ['%'] and the line feed. *)
Lemma format_chunks_framed (pre fmt : string) (args : list Arg) :
  char_in "%" pre = false ->
  format_chunks (pre ++ fmt ++ endl) args =
  match format_chunks fmt args with
  | Some o => Some (ordinary pre ++ o ++ [Ordinary LF])%list
  | None => None
  end.
Proof.
  intros Hpre. unfold format_chunks.
  rewrite run_app, (run_plain _ _ Hpre), run_app.
  destruct (run fmt (Copying, args)) as [[o [m rest]]|]; [|reflexivity].
  rewrite run_endl. destruct m; reflexivity.
Qed.

Lemma format_framed (pre fmt : string) (args : list Arg) :
  char_in "%" pre = false ->
  formatted (pre ++ fmt ++ endl) args =
  match formatted fmt args with
  | Some body => Some (pre ++ body ++ endl)
  | None => None
  end.
Proof.
  intros Hpre. unfold formatted. rewrite (format_chunks_framed _ _ _ Hpre).
  destruct (format_chunks fmt args) as [o|]; [|reflexivity].
  now rewrite !text_of_app, text_of_ordinary.
Qed.

(* ================================================================== *)
(** ** Digits *)
(* ================================================================== *)

Lemma digits_loop_acc (fuel : nat) (base : N) (upper : bool) (n : N) (acc : string) :
  digits_loop fuel base upper n acc = digits_loop fuel base upper n "" ++ acc.
Proof.
  revert n acc. induction fuel as [|k IH]; intros n acc; simpl; [reflexivity |].
  destruct (n =? 0)%N; [reflexivity |].
  rewrite IH, (IH _ (String _ "")), append_assoc. reflexivity.
Qed.

Lemma number_of_app (base : N) (a b : string) (acc : N) :
  number_of base (a ++ b) acc = number_of base b (number_of base a acc).
Proof.
  revert acc. induction a as [|c a IH]; intros acc; simpl; [reflexivity | apply IH].
Qed.

Lemma digit_value_char (upper : bool) (d : N) :
  (d < 16)%N -> digit_value (digit_char upper d) = d.
Proof.
  intros Hd.
  assert (H : In d (map N.of_nat (seq 0 16))).
  { replace d with (N.of_nat (N.to_nat d)) by apply N2Nat.id.
    apply in_map, in_seq. lia. }
  simpl in H. destruct upper;
    repeat (destruct H as [<-|H]; [reflexivity |]); destruct H.
Qed.

(** The fuel of [digits] is enough: the digits written denote the number. *)
Lemma digits_loop_value (fuel : nat) (base : N) (upper : bool) (n : N) :
  (2 <= base <= 16)%N ->
  (n < 2 ^ N.of_nat fuel)%N ->
  number_of base (digits_loop fuel base upper n "") 0 = n.
Proof.
  intros Hbase. revert n. induction fuel as [|k IH]; intros n Hn.
  - simpl in *. lia.
  - cbn [digits_loop]. destruct (N.eqb_spec n 0) as [->|Hnz]; [reflexivity |].
    rewrite digits_loop_acc, number_of_app, IH.
    + cbn [number_of]. rewrite digit_value_char.
      * rewrite N.mul_comm. symmetry. apply N.div_mod. lia.
      * assert (n mod base < base)%N by (apply N.mod_lt; lia). lia.
    + rewrite Nat2N.inj_succ, N.pow_succ_r' in Hn.
      apply N.Div0.div_lt_upper_bound.
      apply N.lt_le_trans with (1 := Hn).
      apply N.mul_le_mono_r. lia.
Qed.

Lemma digits_value (base : N) (upper : bool) (n : N) :
  (2 <= base <= 16)%N -> number_of base (digits base upper n) 0 = n.
Proof.
  intros Hbase. unfold digits. apply digits_loop_value; [assumption |].
  rewrite N2Nat.id. apply N.size_gt.
Qed.

(** The library model on conversions whose output is well known. *)
Example formatted_decimal :
  formatted "%5d|%-5d|%05d|%+d|% d|%.3d|%.0d|%5.3d"
            [AInt 42; AInt 42; AInt (-42); AInt 5; AInt 5; AInt 7; AInt 0; AInt 7]
  = Some "   42|42   |-0042|+5| 5|007||  007".
Proof. reflexivity. Qed.

Example formatted_unsigned :
  formatted "%x %X %#x %#06x %o %#o %u %lu"
            [AUInt 255; AUInt 255; AUInt 255; AUInt 255; AUInt 8; AUInt 8; AUInt 7;
             AULong 4294967296]
  = Some "ff FF 0xff 0x00ff 10 010 7 4294967296".
Proof. reflexivity. Qed.

Example formatted_text :
  formatted "%s|%.2s|%5s|%-5s|%c|%%|%*d|%-*d|%.*s"
            [AStr "alt"; AStr "hello"; AStr "ab"; AStr "ab"; AInt 65;
             AInt 4; AInt 1; AInt 4; AInt 1; AInt 2; AStr "xyz"]
  = Some "alt|he|   ab|ab   |A|%|   1|1   |xy".
Proof. reflexivity. Qed.

(** Length modifiers: the narrow types are converted before printing, and
    an argument of the other signedness is read when its value fits. *)
Example formatted_lengths :
  formatted "%hhu %hhd %hu %hd %x %o %u %d %zu %zd %ju %jd %tu %td %lu"
            [AInt 300; AInt 200; AInt 70000; AInt 40000; AInt 255; AInt 8; AInt 7;
             AUInt 42; AULong 18446744073709551615; ALong (-1); AULong 10;
             ALong (-10); AULong 3; ALong (-3); ALong 5]
  = Some "44 -56 4464 -25536 ff 10 7 42 18446744073709551615 -1 10 -10 3 -3 5".
Proof. reflexivity. Qed.

(** Calls the standard leaves undefined: a format that ends inside a
    conversion specification, a missing argument, an argument of another
    type. *)
Example formatted_undefined :
  formatted "100%" [] = None /\
  formatted "x=%d" [] = None /\
  formatted "x=%d" [AStr "five"] = None.
Proof. repeat split. Qed.

(* ================================================================== *)
(** ** The logger *)
(* ================================================================== *)

(** What [_log] does, for a level name without ['%']. *)
Lemma _log_spec (fs : FILE) (name fmt : string) (args : list Arg)
      (st : state DefaultLogger) :
  char_in "%" name = false ->
  DefaultLogger._log fs name fmt args st =
  match formatted fmt args with
  | Some body => Some (tt, emit fs ("[mavrosflight][" ++ name ++ "]: " ++ body ++ endl) st)
  | None => None
  end.
Proof.
  intros Hname.
  unfold DefaultLogger._log, bind, libc, ret, fprintf, str, std_endl, insert,
    stringstream_new, emit.
  assert (Hpre : char_in "%" ("[mavrosflight][" ++ name ++ "]: ") = false).
  { rewrite !char_in_app, Hname. reflexivity. }
  replace ((("" ++ "[mavrosflight][") ++ name) ++ "]: ") with
    ("[mavrosflight][" ++ name ++ "]: ") by reflexivity.
  rewrite append_assoc, (format_framed _ _ _ Hpre).
  destruct (formatted fmt args) as [body|]; [|reflexivity].
  rewrite !append_assoc.
  destruct (transmit fs _ (io st)) as [n w]. reflexivity.
Qed.

(** Every entry point of [DefaultLogger], whatever the level and the
    variant, in one equation. *)
Lemma direct_spec (L : Level) (v : variant) (fmt : string) (args : list Arg)
      (st : state DefaultLogger) :
  direct L v fmt args st =
  match formatted fmt args with
  | Some body => Some (tt, emit (level_stream L) (tag L ++ body ++ endl) st)
  | None => None
  end.
Proof.
  destruct L, v; simpl;
    unfold DefaultLogger.debug_throttle, DefaultLogger.info_throttle,
      DefaultLogger.warn_throttle, DefaultLogger.error_throttle,
      DefaultLogger.fatal_throttle, DefaultLogger.debug, DefaultLogger.info,
      DefaultLogger.warn, DefaultLogger.error, DefaultLogger.fatal;
    rewrite _log_spec by reflexivity;
    unfold tag; simpl level_name;
    destruct (formatted fmt args); try reflexivity;
    now rewrite !append_assoc.
Qed.

(* ================================================================== *)
(** ** Where the written characters come from *)
(* ================================================================== *)

Lemma step_ordinary (st st' : pstate) (c d : ascii) (o : list chunk) :
  step st c = Some (o, st') -> In (Ordinary d) o -> d = c.
Proof.
  destruct st as [[|mid] args]; simpl.
  - destruct (Ascii.eqb c "%"); intros [= <- <-]; simpl; [tauto |].
    intros [[= ->]|[]]; reflexivity.
  - destruct (Ascii.eqb c "%") eqn:Hc.
    + apply Ascii.eqb_eq in Hc. subst c.
      destruct mid; [|discriminate].
      intros [= <- <-]. intros [[= ->]|[]]; reflexivity.
    + destruct (is_conv_char c).
      * destruct (parse_spec mid c) as [r|]; [|discriminate].
        destruct (convert r args) as [[txt rest]|]; [|discriminate].
        intros [= <- <-]. intros [H|[]]; discriminate.
      * destruct (is_spec_char c); [|discriminate].
        intros [= <- <-]. intros [].
Qed.

(** Every copied character stands in the format. *)
Lemma run_ordinary (fmt : string) (st st' : pstate) (o : list chunk) (d : ascii) :
  run fmt st = Some (o, st') -> In (Ordinary d) o -> char_in d fmt = true.
Proof.
  revert st o. induction fmt as [|c fmt IH]; intros st o; simpl.
  - intros [= <- <-] [].
  - destruct (step st c) as [[o1 st1]|] eqn:Hstep; [|discriminate].
    destruct (run fmt st1) as [[o2 st2]|] eqn:Hrun; [|discriminate].
    intros [= <- <-] Hin. apply in_app_or in Hin as [Hin|Hin].
    + rewrite (step_ordinary _ _ _ _ _ Hstep Hin), Ascii.eqb_refl. reflexivity.
    + rewrite (IH _ _ Hrun Hin). apply orb_true_r.
Qed.

Lemma text_of_without (c : ascii) (o : list chunk) :
  (forall d, In (Ordinary d) o -> d <> c) ->
  Forall (fun s => char_in c s = false) (converted o) ->
  char_in c (text_of o) = false.
Proof.
  induction o as [|[d|s] o IH]; simpl; intros Hord Hconv; [reflexivity | |].
  - rewrite IH; [| intros e He; apply Hord; now right | assumption].
    rewrite orb_false_r. apply Ascii.eqb_neq. intros ->.
    apply (Hord d); [now left | reflexivity].
  - inversion Hconv as [|? ? Hs Hrest]; subst.
    rewrite char_in_app, Hs, IH; [reflexivity | | assumption].
    intros e He. apply Hord. now right.
Qed.

(** A character absent from the template and from every converted argument
    is absent from the formatted message. *)
Lemma format_chunks_without (c : ascii) (fmt : string) (args : list Arg) (o : list chunk) :
  format_chunks fmt args = Some o ->
  char_in c fmt = false ->
  Forall (fun s => char_in c s = false) (converted o) ->
  char_in c (text_of o) = false.
Proof.
  unfold format_chunks.
  destruct (run fmt (Copying, args)) as [[o' [[|mid] rest]]|] eqn:Hrun; try discriminate.
  intros [= ->] Hfmt Hconv. apply text_of_without; [|assumption].
  intros d Hin ->. rewrite (run_ordinary _ _ _ _ _ Hrun Hin) in Hfmt. discriminate.
Qed.

(* ================================================================== *)
(** ** Arguments left over *)
(* ================================================================== *)

Lemma take_int_surplus (args extra rest : list Arg) (n : Z) :
  take_int args = Some (n, rest) ->
  take_int (args ++ extra)%list = Some (n, (rest ++ extra)%list).
Proof.
  destruct args as [|[] args]; simpl; try discriminate.
  now intros [= -> ->].
Qed.

Lemma resolve_surplus (r : rawspec) (args extra rest : list Arg) (sp : cspec) :
  resolve r args = Some (sp, rest) ->
  resolve r (args ++ extra)%list = Some (sp, (rest ++ extra)%list).
Proof.
  unfold resolve, resolve_width, resolve_prec.
  destruct (r_width r) as [|w|].
  - destruct (r_prec r) as [|p|]; try now intros [= <- <-].
    destruct (take_int args) as [[n a1]|] eqn:H1; [|discriminate].
    rewrite (take_int_surplus _ extra _ _ H1).
    destruct (n <? 0)%Z; now intros [= <- <-].
  - destruct (r_prec r) as [|p|]; try now intros [= <- <-].
    destruct (take_int args) as [[n a1]|] eqn:H1; [|discriminate].
    rewrite (take_int_surplus _ extra _ _ H1).
    destruct (n <? 0)%Z; now intros [= <- <-].
  - destruct (take_int args) as [[n a1]|] eqn:H1; [|discriminate].
    rewrite (take_int_surplus _ extra _ _ H1).
    destruct (n <? 0)%Z;
      (destruct (r_prec r) as [|p|]; try now intros [= <- <-]);
      (destruct (take_int a1) as [[k a2]|] eqn:H2; [|discriminate]);
      rewrite (take_int_surplus _ extra _ _ H2);
      destruct (k <? 0)%Z; now intros [= <- <-].
Qed.

Lemma convert_surplus (r : rawspec) (args extra rest : list Arg) (txt : string) :
  convert r args = Some (txt, rest) ->
  convert r (args ++ extra)%list = Some (txt, (rest ++ extra)%list).
Proof.
  unfold convert.
  destruct (resolve r args) as [[sp [|a a1]]|] eqn:Hres; try discriminate.
  rewrite (resolve_surplus _ _ extra _ _ Hres). simpl.
  destruct (render sp a) as [t|]; [|discriminate].
  now intros [= <- <-].
Qed.

Lemma step_surplus (m m' : mode) (args extra rest : list Arg) (c : ascii) (o : list chunk) :
  step (m, args) c = Some (o, (m', rest)) ->
  step (m, (args ++ extra)%list) c = Some (o, (m', (rest ++ extra)%list)).
Proof.
  destruct m as [|mid]; simpl.
  - destruct (Ascii.eqb c "%"); now intros [= <- <- <-].
  - destruct (Ascii.eqb c "%").
    + destruct mid; [|discriminate]. now intros [= <- <- <-].
    + destruct (is_conv_char c).
      * destruct (parse_spec mid c) as [r|]; [|discriminate].
        destruct (convert r args) as [[txt a1]|] eqn:Hc; [|discriminate].
        rewrite (convert_surplus _ _ extra _ _ Hc). now intros [= <- <- <-].
      * destruct (is_spec_char c); [|discriminate]. now intros [= <- <- <-].
Qed.

Lemma run_surplus (fmt : string) (m m' : mode) (args extra rest : list Arg) (o : list chunk) :
  run fmt (m, args) = Some (o, (m', rest)) ->
  run fmt (m, (args ++ extra)%list) = Some (o, (m', (rest ++ extra)%list)).
Proof.
  revert m args o. induction fmt as [|c fmt IH]; intros m args o; cbn [run].
  - now intros [= <- <- <-].
  - destruct (step (m, args) c) as [[o1 [m1 a1]]|] eqn:Hstep; [|discriminate].
    rewrite (step_surplus _ _ _ extra _ _ _ Hstep).
    destruct (run fmt (m1, a1)) as [[o2 [m2 a2]]|] eqn:Hrun; [|discriminate].
    intros [= <- <- <-]. rewrite (IH _ _ _ Hrun). reflexivity.
Qed.

(** Arguments beyond those the template converts do not change the text. *)
Lemma format_surplus (fmt : string) (args extra : list Arg) (body : string) :
  formatted fmt args = Some body ->
  formatted fmt (args ++ extra)%list = Some body.
Proof.
  unfold formatted, format_chunks.
  destruct (run fmt (Copying, args)) as [[o [[|mid] rest]]|] eqn:Hrun; try discriminate.
  rewrite (run_surplus _ _ _ _ extra _ _ Hrun). trivial.
Qed.

(* ================================================================== *)
(** ** Templates as directives *)
(* ================================================================== *)

Lemma spec_char_not_conv (c : ascii) :
  is_spec_char c = true -> Ascii.eqb c "%" = false /\ is_conv_char c = false.
Proof.
  destruct c as [[] [] [] [] [] [] [] []]; vm_compute; intros H;
    first [discriminate H | split; reflexivity].
Qed.

Lemma run_mid (mid acc : string) (args : list Arg) :
  all_chars is_spec_char mid = true ->
  run mid (InSpec acc, args) = Some ([], (InSpec (acc ++ mid), args)).
Proof.
  revert acc. induction mid as [|c mid IH]; intros acc; cbn [all_chars run].
  - now rewrite append_nil_r.
  - intros H. apply andb_true_iff in H as [Hc Hmid].
    destruct (spec_char_not_conv c Hc) as [Hpct Hconv].
    cbn [step]. rewrite Hpct, Hconv, Hc, (IH _ Hmid), append_assoc. reflexivity.
Qed.

Lemma run_placeholder (mid : string) (c : ascii) (args : list Arg) :
  well_formed (Placeholder mid c) = true ->
  run (directive_text (Placeholder mid c)) (Copying, args) =
  match parse_spec mid c with
  | Some r =>
      match convert r args with
      | Some (txt, rest) => Some ([Converted txt], (Copying, rest))
      | None => None
      end
  | None => None
  end.
Proof.
  cbn [well_formed]. intros H.
  apply andb_true_iff in H as [H Hpct]. apply andb_true_iff in H as [Hmid Hconv].
  apply negb_true_iff in Hpct.
  cbn [directive_text run]. cbn [step]. rewrite Ascii.eqb_refl.
  rewrite run_app, (run_mid _ _ _ Hmid). cbn [append run step].
  rewrite Hpct, Hconv.
  destruct (parse_spec mid c) as [r|]; [|reflexivity].
  destruct (convert r args) as [[txt rest]|]; reflexivity.
Qed.

(** The machine on a template made of well-formed directives stops between
    directives and writes what positional substitution gives. *)
Lemma run_template (ds : list directive) (args : list Arg) :
  Forall (fun d => well_formed d = true) ds ->
  match run (template_of ds) (Copying, args) with
  | Some (o, (m, _)) => m = Copying /\ substitute ds args = Some (text_of o)
  | None => substitute ds args = None
  end.
Proof.
  intros Hwf. revert args. induction Hwf as [|d ds Hd Hds IH]; intros args.
  - simpl. split; reflexivity.
  - cbn [template_of]. rewrite run_app. destruct d as [s|mid c].
    + cbn [directive_text substitute]. cbn [well_formed] in Hd.
      apply negb_true_iff in Hd. rewrite (run_plain _ _ Hd).
      specialize (IH args).
      destruct (run (template_of ds) (Copying, args)) as [[o [m rest]]|].
      * destruct IH as [-> ->]. split; [reflexivity|].
        now rewrite text_of_app, text_of_ordinary.
      * now rewrite IH.
    + rewrite (run_placeholder _ _ _ Hd). cbn [substitute].
      destruct (parse_spec mid c) as [r|]; [|reflexivity].
      destruct (convert r args) as [[txt rest]|]; [|reflexivity].
      specialize (IH rest).
      destruct (run (template_of ds) (Copying, rest)) as [[o [m rest']]|].
      * destruct IH as [-> ->]. split; reflexivity.
      * now rewrite IH.
Qed.

Lemma format_template (ds : list directive) (args : list Arg) :
  Forall (fun d => well_formed d = true) ds ->
  formatted (template_of ds) args = substitute ds args.
Proof.
  intros Hwf. pose proof (run_template ds args Hwf) as H.
  unfold formatted, format_chunks.
  destruct (run (template_of ds) (Copying, args)) as [[o [m rest]]|].
  - destruct H as [-> ->]. reflexivity.
  - now rewrite H.
Qed.

Lemma formatted_plain (fmt : string) (args : list Arg) :
  char_in "%" fmt = false -> formatted fmt args = Some fmt.
Proof.
  intros H. unfold formatted, format_chunks.
  rewrite (run_plain _ _ H), text_of_ordinary. reflexivity.
Qed.

(* ================================================================== *)
(** ** The streams *)
(* ================================================================== *)

Lemma stream_of_set_other (fs : FILE) (s : stream) (w : world) :
  stream_of (other_stream fs) (set_stream fs s w) = stream_of (other_stream fs) w.
Proof. destruct fs; reflexivity. Qed.

Lemma stream_of_set_same (fs : FILE) (s : stream) (w : world) :
  stream_of fs (set_stream fs s w) = s.
Proof. destruct fs; reflexivity. Qed.

(** Handing text to one stream leaves the other stream as it was. *)
Lemma emit_other {D : Type} (fs : FILE) (text : string) (st : state D) :
  stream_of (other_stream fs) (io (emit fs text st)) = stream_of (other_stream fs) (io st).
Proof.
  unfold emit, transmit. simpl.
  destruct (failed (stream_of fs (io st))); simpl; [reflexivity |].
  apply stream_of_set_other.
Qed.

(** An open stream receives exactly the text; a failed one nothing. *)
Lemma emit_written {D : Type} (fs : FILE) (text : string) (st : state D) :
  written (stream_of fs (io (emit fs text st))) =
  written (stream_of fs (io st)) ++
  (if failed (stream_of fs (io st)) then "" else text).
Proof.
  unfold emit, transmit. simpl.
  destruct (failed (stream_of fs (io st))) eqn:Hf; simpl.
  - now rewrite append_nil_r.
  - now rewrite stream_of_set_same.
Qed.

Lemma emit_failed {D : Type} (fs fs' : FILE) (text : string) (st : state D) :
  failed (stream_of fs' (io (emit fs text st))) = failed (stream_of fs' (io st)).
Proof.
  unfold emit, transmit. simpl.
  destruct (failed (stream_of fs (io st))) eqn:Hf; simpl; [reflexivity |].
  destruct fs, fs'; simpl in *; congruence.
Qed.

Lemma emit_on_failed {D : Type} (fs : FILE) (text : string) (st : state D) :
  failed (stream_of fs (io st)) = true -> emit fs text st = st.
Proof.
  unfold emit, transmit. intros ->. destruct st; reflexivity.
Qed.

(* ================================================================== *)
(** ** The interface *)
(* ================================================================== *)

(** Whatever the derived class, a member of the interface does what the
    member of the derived class does, on every state. *)
Lemma interface_call_forwards {Derived : Type} `{Logger Derived}
      (L : Level) (v : variant) (fmt : string) (args : list Arg) (st : state Derived) :
  interface_call L v fmt args st = derived_call L v fmt args st.
Proof. destruct L, v; reflexivity. Qed.

(** Each member of [LoggerInterface<DefaultLogger>] is the member of
    [DefaultLogger] it forwards to. *)
Lemma via_interface_direct (L : Level) (v : variant) :
  via_interface L v = direct L v.
Proof. destruct L, v; reflexivity. Qed.

(** Arguments after those the template converts are ignored by every
    entry point. *)
Lemma direct_surplus (L : Level) (v : variant) (fmt : string) (args extra : list Arg)
      (body : string) (st : state DefaultLogger) :
  formatted fmt args = Some body ->
  direct L v fmt (args ++ extra)%list st = direct L v fmt args st.
Proof.
  intros Hbody. now rewrite !direct_spec, (format_surplus _ _ extra _ Hbody), Hbody.
Qed.

(* ================================================================== *)
(** ** Arguments by position *)
(* ================================================================== *)

Lemma skipn_nth_error (args : list Arg) (i : nat) :
  skipn i args =
  match nth_error args i with
  | Some a => a :: skipn (S i) args
  | None => []
  end.
Proof.
  revert i. induction args as [|a args IH]; intros [|i]; try reflexivity.
  exact (IH i).
Qed.

Lemma take_int_skipn (args : list Arg) (i : nat) :
  take_int (skipn i args) =
  match int_at args i with
  | Some n => Some (n, skipn (S i) args)
  | None => None
  end.
Proof.
  unfold int_at. rewrite skipn_nth_error.
  destruct (nth_error args i) as [[]|]; reflexivity.
Qed.

Lemma resolve_width_skipn (f : flagset) (w : amount) (args : list Arg) (i : nat) :
  resolve_width f w (skipn i args) =
  match width_at f w args i with
  | Some (f', n) => Some (f', n, skipn (i + star_count w) args)
  | None => None
  end.
Proof.
  destruct w as [|n|]; cbn [resolve_width width_at star_count];
    rewrite ?Nat.add_0_r, ?Nat.add_1_r; try reflexivity.
  rewrite take_int_skipn. destruct (int_at args i) as [n|]; [|reflexivity].
  destruct (n <? 0)%Z; reflexivity.
Qed.

Lemma resolve_prec_skipn (p : amount) (args : list Arg) (i : nat) :
  resolve_prec p (skipn i args) =
  match prec_at p args i with
  | Some q => Some (q, skipn (i + star_count p) args)
  | None => None
  end.
Proof.
  destruct p as [|n|]; cbn [resolve_prec prec_at star_count];
    rewrite ?Nat.add_0_r, ?Nat.add_1_r; try reflexivity.
  rewrite take_int_skipn. destruct (int_at args i) as [n|]; [|reflexivity].
  destruct (n <? 0)%Z; reflexivity.
Qed.

(** One conversion takes its arguments at the places [spec_at] names. *)
Lemma convert_skipn (r : rawspec) (args : list Arg) (i : nat) :
  convert r (skipn i args) =
  match spec_at r args i,
        nth_error args (i + star_count (r_width r) + star_count (r_prec r)) with
  | Some sp, Some a =>
      match render sp a with
      | Some txt =>
          Some (txt, skipn (S (i + star_count (r_width r) + star_count (r_prec r))) args)
      | None => None
      end
  | _, _ => None
  end.
Proof.
  unfold convert, resolve, spec_at. rewrite resolve_width_skipn.
  destruct (width_at (r_flags r) (r_width r) args i) as [[f w]|]; [|reflexivity].
  rewrite resolve_prec_skipn.
  destruct (prec_at (r_prec r) args (i + star_count (r_width r))) as [q|]; [|reflexivity].
  rewrite skipn_nth_error.
  destruct (nth_error args (i + star_count (r_width r) + star_count (r_prec r)));
    reflexivity.
Qed.

Lemma substitute_positional (ds : list directive) (args : list Arg) (i : nat) :
  substitute ds (skipn i args) = positional ds args i.
Proof.
  revert i. induction ds as [|[s|mid c] ds IH]; intros i; cbn [substitute positional].
  - reflexivity.
  - now rewrite IH.
  - destruct (parse_spec mid c) as [r|]; [|reflexivity].
    rewrite convert_skipn.
    destruct (spec_at r args i) as [sp|]; [|reflexivity].
    destruct (nth_error args _) as [a|]; [|reflexivity].
    destruct (render sp a) as [txt|]; [|reflexivity].
    now rewrite IH.
Qed.

(** The machine on a template of well-formed directives is substitution by
    position, also where that is undefined. *)
Lemma formatted_positional (ds : list directive) (args : list Arg) :
  Forall (fun d => well_formed d = true) ds ->
  formatted (template_of ds) args = positional ds args 0.
Proof.
  intros Hwf. rewrite (format_template _ _ Hwf).
  exact (substitute_positional ds args 0).
Qed.

(* ================================================================== *)
(** ** Templates without placeholder *)
(* ================================================================== *)

Lemma run_unescape (n : nat) (fmt text : string) (args : list Arg) :
  String.length fmt <= n ->
  unescape fmt = Some text ->
  run fmt (Copying, args) = Some (ordinary text, (Copying, args)).
Proof.
  revert fmt text. induction n as [|n IH]; intros [|c fmt] text Hlen; cbn [unescape].
  - intros [= <-]. reflexivity.
  - simpl in Hlen. lia.
  - intros [= <-]. reflexivity.
  - simpl in Hlen. cbn [run step]. destruct (Ascii.eqb c "%") eqn:Hc.
    + destruct fmt as [|d fmt]; [discriminate |].
      destruct (Ascii.eqb d "%") eqn:Hd; [|discriminate].
      destruct (unescape fmt) as [t|] eqn:Ht; [|discriminate].
      intros [= <-]. cbn [run step]. rewrite Hd.
      simpl in Hlen. rewrite (IH fmt t) by (assumption || lia). reflexivity.
    + destruct (unescape fmt) as [t|] eqn:Ht; [|discriminate].
      intros [= <-]. rewrite (IH fmt t) by (assumption || lia). reflexivity.
Qed.

(** A template without placeholder is written with one ['%'] for each
    ["%%"], whatever the arguments. *)
Lemma formatted_unescape (fmt text : string) (args : list Arg) :
  unescape fmt = Some text -> formatted fmt args = Some text.
Proof.
  intros H. unfold formatted, format_chunks.
  rewrite (run_unescape (String.length fmt) fmt text args (le_n _) H).
  now rewrite text_of_ordinary.
Qed.

Lemma unescape_plain (fmt : string) : char_in "%" fmt = false -> unescape fmt = Some fmt.
Proof.
  induction fmt as [|c fmt IH]; cbn [char_in unescape]; [reflexivity |].
  intros H. apply orb_false_iff in H as [Hc Hfmt].
  rewrite Ascii.eqb_sym in Hc. now rewrite Hc, (IH Hfmt).
Qed.

(* ================================================================== *)
(** ** The effect of one call on the streams *)
(* ================================================================== *)

(** A call with defined formatting returns; the stream of its level, unless
    it has failed, has received the tag, the formatted message and the line
    feed after what it held; the other stream is as it was. *)
Lemma direct_effect (L : Level) (v : variant) (fmt : string) (args : list Arg)
      (body : string) (st : state DefaultLogger) :
  formatted fmt args = Some body ->
  exists st',
    direct L v fmt args st = Some (tt, st') /\
    written (stream_of (level_stream L) (io st')) =
      written (stream_of (level_stream L) (io st)) ++
      (if failed (stream_of (level_stream L) (io st)) then ""
       else tag L ++ body ++ endl) /\
    stream_of (other_stream (level_stream L)) (io st') =
      stream_of (other_stream (level_stream L)) (io st).
Proof.
  intros Hbody. exists (emit (level_stream L) (tag L ++ body ++ endl) st).
  split; [|split].
  - now rewrite direct_spec, Hbody.
  - apply emit_written.
  - apply emit_other.
Qed.

(* ================================================================== *)
(** ** Properties of the logger *)
(* ================================================================== *)

(** C1: for every severity level, format template and argument list, the
    level's member of [DefaultLogger] emits exactly one message,
    [[mavrosflight][<LEVEL>]: <formatted message>] followed by the line
    terminator, where <LEVEL> is the upper-case level name and the formatted
    message is the template with the arguments substituted (here: whenever
    that substitution is defined for the template and the arguments).  The
    stream of the level holds, after what it held, that message and nothing
    else (nothing if it has failed), and the other stream is as it was. *)
Theorem C1_level_emits_one_tagged_line
    (L : Level) (fmt : string) (args : list Arg) (body : string)
    (st : state DefaultLogger) :
  formatted fmt args = Some body ->
  exists st',
    direct L Immediate fmt args st = Some (tt, st') /\
    written (stream_of (level_stream L) (io st')) =
      written (stream_of (level_stream L) (io st)) ++
      (if failed (stream_of (level_stream L) (io st)) then ""
       else "[mavrosflight][" ++ level_name L ++ "]: " ++ body ++ endl) /\
    stream_of (other_stream (level_stream L)) (io st') =
      stream_of (other_stream (level_stream L)) (io st).
Proof.
  intros Hbody.
  destruct (direct_effect L Immediate fmt args body st Hbody) as [st' [Hrun [Hw Ho]]].
  exists st'. split; [exact Hrun | split; [|exact Ho]].
  rewrite Hw. unfold tag. now rewrite !append_assoc.
Qed.

Lemma C1_witness :
  formatted "x=%d" [AInt 5] = Some "x=5" /\
  exists st',
    direct Warn Immediate "x=%d" [AInt 5] st_open = Some (tt, st') /\
    written (on_stderr (io st')) = "[mavrosflight][WARN]: x=5" ++ endl /\
    on_stdout (io st') = on_stdout (io st_open).
Proof.
  split; [reflexivity |].
  exact (C1_level_emits_one_tagged_line Warn "x=%d" [AInt 5] "x=5" st_open eq_refl).
Defined.

(** C2: the destination stream of every call into [DefaultLogger] depends
    on the severity level alone: debug and info write to standard output,
    warn, error and fatal to standard error; the other stream is left as it
    was, and the chosen stream receives the message and nothing else. *)
Theorem C2_stream_selected_by_level
    (L : Level) (v : variant) (fmt : string) (args : list Arg) (body : string)
    (st : state DefaultLogger) :
  formatted fmt args = Some body ->
  let fs := match L with
            | Debug | Info => stdout
            | Warn | Error | Fatal => stderr
            end in
  let msg := tag L ++ body ++ endl in
  exists st',
    direct L v fmt args st = Some (tt, st') /\
    stream_of (other_stream fs) (io st') = stream_of (other_stream fs) (io st) /\
    written (stream_of fs (io st')) =
      written (stream_of fs (io st)) ++
      (if failed (stream_of fs (io st)) then "" else msg).
Proof.
  intros Hbody fs msg.
  exists (emit fs msg st). split; [|split].
  - rewrite direct_spec, Hbody. destruct L; reflexivity.
  - apply emit_other.
  - apply emit_written.
Qed.

Lemma C2_witness :
  exists st',
    direct Info (Throttled one_second) "up %s" [AStr "now"] st_open = Some (tt, st') /\
    stream_of stderr (io st') = stream_of stderr (io st_open) /\
    written (stream_of stdout (io st')) = "[mavrosflight][INFO]: up now" ++ endl.
Proof.
  destruct (C2_stream_selected_by_level Info (Throttled one_second) "up %s"
              [AStr "now"] "up now" st_open eq_refl) as [st' [H1 [H2 H3]]].
  exists st'. split; [exact H1 | split; [exact H2 | exact H3]].
Defined.

(** C3: for every level, period, template and arguments, the throttled
    member does exactly what the plain member does: the period is
    discarded, nothing is suppressed, and two throttled calls in immediate
    succession with the same arguments emit the message twice. *)
Theorem C3_throttle_is_plain_call :
  (forall (L : Level) (p : c_float) (fmt : string) (args : list Arg)
          (st : state DefaultLogger),
      direct L (Throttled p) fmt args st = direct L Immediate fmt args st) /\
  (forall (L : Level) (p : c_float) (fmt : string) (args : list Arg) (body : string)
          (st : state DefaultLogger),
      formatted fmt args = Some body ->
      let fs := level_stream L in
      let msg := tag L ++ body ++ endl in
      (direct L (Throttled p) fmt args ;;; direct L (Throttled p) fmt args) st =
        Some (tt, emit fs msg (emit fs msg st)) /\
      written (stream_of fs (io (emit fs msg (emit fs msg st)))) =
        written (stream_of fs (io st)) ++
        (if failed (stream_of fs (io st)) then "" else msg ++ msg)).
Proof.
  split.
  - intros L p fmt args st. now rewrite !direct_spec.
  - intros L p fmt args body st Hbody fs msg. split.
    + unfold bind. rewrite direct_spec, Hbody, direct_spec, Hbody. reflexivity.
    + rewrite emit_written, emit_failed, emit_written.
      destruct (failed (stream_of fs (io st))).
      * now rewrite !append_nil_r.
      * now rewrite append_assoc.
Qed.

Lemma C3_witness :
  (direct Error (Throttled one_second) "lost %d" [AInt 3] ;;;
   direct Error (Throttled one_second) "lost %d" [AInt 3]) st_open =
    Some (tt, emit stderr ("[mavrosflight][ERROR]: lost 3" ++ endl)
                (emit stderr ("[mavrosflight][ERROR]: lost 3" ++ endl) st_open)) /\
  written (stream_of stderr
             (io (emit stderr ("[mavrosflight][ERROR]: lost 3" ++ endl)
                    (emit stderr ("[mavrosflight][ERROR]: lost 3" ++ endl) st_open)))) =
    ("[mavrosflight][ERROR]: lost 3" ++ endl) ++ ("[mavrosflight][ERROR]: lost 3" ++ endl).
Proof.
  exact (proj2 C3_throttle_is_plain_call Error one_second "lost %d" [AInt 3] "lost 3"
           st_open eq_refl).
Defined.

(** C4: for every level, throttled or not, and every input, the call made
    through [LoggerInterface<DefaultLogger>] behaves exactly as the call of
    the matching member of [DefaultLogger]: it forwards and adds nothing,
    so the same text reaches the same stream. *)
Theorem C4_interface_forwards
    (L : Level) (v : variant) (fmt : string) (args : list Arg)
    (st : state DefaultLogger) :
  via_interface L v fmt args st = direct L v fmt args st /\
  via_interface L v fmt args st =
    match formatted fmt args with
    | Some body => Some (tt, emit (level_stream L) (tag L ++ body ++ endl) st)
    | None => None
    end.
Proof.
  split.
  - destruct L, v; reflexivity.
  - rewrite via_interface_direct. apply direct_spec.
Qed.




(** C6: when neither the template nor any converted argument holds a line
    break, what a call adds to the stream of its level ends with one line
    break and has no other: none is missing and none is doubled.  The
    stream gains one line break (none if it has failed) and the other
    stream gains nothing. *)
Theorem C6_exactly_one_line_break
    (L : Level) (v : variant) (fmt : string) (args : list Arg) (o : list chunk)
    (st : state DefaultLogger) :
  format_chunks fmt args = Some o ->
  char_in LF fmt = false ->
  Forall (fun s => char_in LF s = false) (converted o) ->
  exists (st' : state DefaultLogger) (line : string),
    direct L v fmt args st = Some (tt, st') /\
    char_in LF line = false /\
    written (stream_of (level_stream L) (io st')) =
      written (stream_of (level_stream L) (io st)) ++
      (if failed (stream_of (level_stream L) (io st)) then "" else line ++ endl) /\
    count_char LF (written (stream_of (level_stream L) (io st'))) =
      count_char LF (written (stream_of (level_stream L) (io st))) +
      (if failed (stream_of (level_stream L) (io st)) then 0 else 1) /\
    stream_of (other_stream (level_stream L)) (io st') =
      stream_of (other_stream (level_stream L)) (io st).
Proof.
  intros Ho Hfmt Hconv.
  pose proof (format_chunks_without LF fmt args o Ho Hfmt Hconv) as Hbody.
  assert (Hline : char_in LF (tag L ++ text_of o) = false).
  { rewrite char_in_app, Hbody. destruct L; reflexivity. }
  assert (Hf : formatted fmt args = Some (text_of o)) by (unfold formatted; now rewrite Ho).
  destruct (direct_effect L v fmt args (text_of o) st Hf) as [st' [Hrun [Hw Hother]]].
  rewrite <- append_assoc in Hw.
  exists st', (tag L ++ text_of o).
  split; [exact Hrun | split; [exact Hline | split; [exact Hw | split; [|exact Hother]]]].
  rewrite Hw, count_char_app.
  destruct (failed (stream_of (level_stream L) (io st))); [reflexivity |].
  rewrite count_char_app, (count_char_absent _ _ Hline). reflexivity.
Qed.

Lemma C6_witness :
  exists (st' : state DefaultLogger) (line : string),
    direct Debug Immediate "x=%d" [AInt 5] st_open = Some (tt, st') /\
    char_in LF line = false /\
    written (on_stdout (io st')) = line ++ endl /\
    count_char LF (written (on_stdout (io st'))) = 1 /\
    on_stderr (io st') = on_stderr (io st_open).
Proof.
  apply (C6_exactly_one_line_break Debug Immediate "x=%d" [AInt 5]
           [Ordinary "x"; Ordinary "="; Converted "5"] st_open).
  - reflexivity.
  - reflexivity.
  - repeat constructor.
Defined.

(** C7: the arguments are substituted into the placeholders of the
    template in positional order.  For a template made of stretches of text
    and placeholders, the stream receives what substitution by position
    gives: each placeholder converts the argument at its own place, counted
    from the first argument of the call, and a call whose arguments do not
    fit in that order is undefined; they are not matched by type.  So
    [info("%s=%d", "alt", 120)] writes the body [alt=120], and the same
    call with the two arguments exchanged is undefined. *)
Theorem C7_positional_substitution :
  (forall (L : Level) (v : variant) (ds : list directive) (args : list Arg)
          (st : state DefaultLogger),
      Forall (fun d => well_formed d = true) ds ->
      match positional ds args 0 with
      | Some body =>
          exists st',
            direct L v (template_of ds) args st = Some (tt, st') /\
            written (stream_of (level_stream L) (io st')) =
              written (stream_of (level_stream L) (io st)) ++
              (if failed (stream_of (level_stream L) (io st)) then ""
               else tag L ++ body ++ endl) /\
            stream_of (other_stream (level_stream L)) (io st') =
              stream_of (other_stream (level_stream L)) (io st)
      | None => direct L v (template_of ds) args st = None
      end) /\
  (forall st : state DefaultLogger,
      exists st',
        DefaultLogger.info "%s=%d" [AStr "alt"; AInt 120] st = Some (tt, st') /\
        written (on_stdout (io st')) =
          written (on_stdout (io st)) ++
          (if failed (on_stdout (io st)) then ""
           else "[mavrosflight][INFO]: " ++ "alt=120" ++ endl) /\
        on_stderr (io st') = on_stderr (io st)) /\
  (forall st : state DefaultLogger,
      DefaultLogger.info "%s=%d" [AInt 120; AStr "alt"] st = None).
Proof.
  split; [|split].
  - intros L v ds args st Hwf.
    pose proof (formatted_positional ds args Hwf) as Hpos.
    destruct (positional ds args 0) as [body|].
    + exact (direct_effect L v _ _ body st Hpos).
    + now rewrite direct_spec, Hpos.
  - intros st.
    exact (direct_effect Info Immediate "%s=%d" [AStr "alt"; AInt 120] "alt=120" st
             eq_refl).
  - intros st. exact (direct_spec Info Immediate "%s=%d" [AInt 120; AStr "alt"] st).
Qed.

Lemma C7_witness :
  template_of [Text "from "; Placeholder "" "d"; Text " to "; Placeholder "" "s"] =
    "from %d to %s" /\
  (exists st',
      direct Info Immediate "from %d to %s" [AInt 1; AStr "b"] st_open = Some (tt, st') /\
      written (on_stdout (io st')) = "[mavrosflight][INFO]: from 1 to b" ++ endl /\
      on_stderr (io st') = on_stderr (io st_open)) /\
  direct Info Immediate "from %d to %s" [AStr "b"; AInt 1] st_open = None.
Proof.
  split; [reflexivity | split].
  - exact (proj1 C7_positional_substitution Info Immediate
             [Text "from "; Placeholder "" "d"; Text " to "; Placeholder "" "s"]
             [AInt 1; AStr "b"] st_open
             ltac:(repeat constructor)).
  - exact (proj1 C7_positional_substitution Info Immediate
             [Text "from "; Placeholder "" "d"; Text " to "; Placeholder "" "s"]
             [AStr "b"; AInt 1] st_open
             ltac:(repeat constructor)).
Defined.

(** C8, as the claim states it, fails on a template whose only ['%'] are
    pairs ["%%"]: it has no placeholder and the call has no argument, yet
    the body written is not the template: ["100%%"] is written [100%]. *)
Lemma C8_counterexample :
  unescape "100%%" = Some "100%" /\
  ~ (exists st',
        direct Info Immediate "100%%" [] st_open = Some (tt, st') /\
        written (on_stdout (io st')) = tag Info ++ "100%%" ++ endl).
Proof.
  split; [reflexivity |].
  intros [st' [Hrun Hw]]. vm_compute in Hrun. injection Hrun as <-.
  vm_compute in Hw. discriminate Hw.
Qed.

(** C8, amended: for every level, a call with no variadic argument and a
    template without ['%'] writes the template itself as the message body,
    after the tag and before the line terminator; and a call with a
    template without placeholder writes it with one ['%'] for each
    ["%%"]. *)
Theorem C8_plain_template_verbatim :
  (forall (L : Level) (fmt : string) (st : state DefaultLogger),
      char_in "%" fmt = false ->
      exists st',
        direct L Immediate fmt [] st = Some (tt, st') /\
        written (stream_of (level_stream L) (io st')) =
          written (stream_of (level_stream L) (io st)) ++
          (if failed (stream_of (level_stream L) (io st)) then ""
           else tag L ++ fmt ++ endl) /\
        stream_of (other_stream (level_stream L)) (io st') =
          stream_of (other_stream (level_stream L)) (io st)) /\
  (forall (L : Level) (fmt text : string) (st : state DefaultLogger),
      unescape fmt = Some text ->
      exists st',
        direct L Immediate fmt [] st = Some (tt, st') /\
        written (stream_of (level_stream L) (io st')) =
          written (stream_of (level_stream L) (io st)) ++
          (if failed (stream_of (level_stream L) (io st)) then ""
           else tag L ++ text ++ endl) /\
        stream_of (other_stream (level_stream L)) (io st') =
          stream_of (other_stream (level_stream L)) (io st)).
Proof.
  split.
  - intros L fmt st Hfmt.
    exact (direct_effect L Immediate fmt [] fmt st (formatted_plain _ _ Hfmt)).
  - intros L fmt text st Htext.
    exact (direct_effect L Immediate fmt [] text st (formatted_unescape _ _ _ Htext)).
Qed.

Lemma C8_witness :
  (exists st',
      direct Fatal Immediate "link down" [] st_open = Some (tt, st') /\
      written (on_stderr (io st')) = "[mavrosflight][FATAL]: link down" ++ endl /\
      on_stdout (io st') = on_stdout (io st_open)) /\
  (exists st',
      direct Info Immediate "100%%" [] st_open = Some (tt, st') /\
      written (on_stdout (io st')) = "[mavrosflight][INFO]: 100%" ++ endl /\
      on_stderr (io st') = on_stderr (io st_open)).
Proof.
  split.
  - exact (proj1 C8_plain_template_verbatim Fatal "link down" st_open eq_refl).
  - exact (proj2 C8_plain_template_verbatim Info "100%%" "100%" st_open eq_refl).
Defined.

(** C9: [DefaultLogger] keeps no state.  What a call emits is determined by
    the level, the template and the arguments: the same text goes to the
    same stream from every state, whatever was logged before and whatever
    the period, and the logger object after the call is the object before
    it. *)
Theorem C9_logger_is_stateless (L : Level) (fmt : string) (args : list Arg) :
  exists out : option string,
    forall (v : variant) (st : state DefaultLogger),
      direct L v fmt args st =
      match out with
      | Some text =>
          Some (tt, mkState (this st) (snd (transmit (level_stream L) text (io st))))
      | None => None
      end.
Proof.
  exists (match formatted fmt args with
          | Some body => Some (tag L ++ body ++ endl)
          | None => None
          end).
  intros v st. rewrite direct_spec.
  destruct (formatted fmt args); reflexivity.
Qed.

(** C10: a call whose template holds no conversion specification writes
    the tag, the template and one line terminator to the stream of its
    level, and nothing to the other stream, whatever arguments come with
    it: the surplus arguments are ignored and the call does what the call
    without them does. *)
Theorem C10_surplus_arguments_ignored
    (L : Level) (v : variant) (fmt : string) (args : list Arg)
    (st : state DefaultLogger) :
  char_in "%" fmt = false ->
  exists st',
    direct L v fmt args st = Some (tt, st') /\
    direct L v fmt [] st = Some (tt, st') /\
    written (stream_of (level_stream L) (io st')) =
      written (stream_of (level_stream L) (io st)) ++
      (if failed (stream_of (level_stream L) (io st)) then ""
       else tag L ++ fmt ++ endl) /\
    stream_of (other_stream (level_stream L)) (io st') =
      stream_of (other_stream (level_stream L)) (io st).
Proof.
  intros Hfmt.
  destruct (direct_effect L v fmt args fmt st (formatted_plain _ _ Hfmt))
    as [st' [Hrun [Hw Hother]]].
  exists st'. split; [exact Hrun | split; [| split; [exact Hw | exact Hother]]].
  rewrite <- Hrun, !direct_spec, !(formatted_plain _ _ Hfmt). reflexivity.
Qed.

Lemma C10_witness :
  exists st',
    direct Warn Immediate "low battery" [AInt 7; AStr "unused"] st_open = Some (tt, st') /\
    direct Warn Immediate "low battery" [] st_open = Some (tt, st') /\
    written (on_stderr (io st')) = "[mavrosflight][WARN]: low battery" ++ endl /\
    on_stdout (io st') = on_stdout (io st_open).
Proof.
  exact (C10_surplus_arguments_ignored Warn Immediate "low battery"
           [AInt 7; AStr "unused"] st_open eq_refl).
Defined.

(* ================================================================== *)
(** ** More on strings and streams *)
(* ================================================================== *)

Lemma length_append (a b : string) :
  String.length (a ++ b) = String.length a + String.length b.
Proof. induction a as [|c a IH]; simpl; [reflexivity | now rewrite IH]. Qed.

Lemma append_inj_l (a b c : string) : a ++ b = a ++ c -> b = c.
Proof.
  induction a as [|x a IH]; simpl; [trivial |].
  intros [= H]. auto.
Qed.

Lemma append_inj_r (a b c : string) : a ++ c = b ++ c -> a = b.
Proof.
  revert b. induction a as [|x a IH]; intros [|y b] H; simpl in H.
  - reflexivity.
  - apply (f_equal String.length) in H. simpl in H. rewrite length_append in H. lia.
  - apply (f_equal String.length) in H. simpl in H. rewrite length_append in H. lia.
  - injection H as -> H. now rewrite (IH _ H).
Qed.

Lemma same_stream_other (fs fs' : FILE) :
  same_stream fs fs' = false -> fs' = other_stream fs.
Proof. destruct fs, fs'; simpl; congruence. Qed.

Lemma same_stream_eq (fs fs' : FILE) : same_stream fs fs' = true -> fs = fs'.
Proof. destruct fs, fs'; simpl; congruence. Qed.

(** Two texts handed to one stream are their concatenation handed once. *)
Lemma emit_app {D : Type} (fs : FILE) (a b : string) (st : state D) :
  emit fs b (emit fs a st) = emit fs (a ++ b) st.
Proof.
  destruct st as [lg [[wo fo ro] [we fe re]]].
  destruct fs; unfold emit, transmit; simpl.
  - destruct fo; simpl; [reflexivity | now rewrite append_assoc].
  - destruct fe; simpl; [reflexivity | now rewrite append_assoc].
Qed.

(** Texts handed to the two streams do so in either order. *)
Lemma emit_commute {D : Type} (fs : FILE) (a b : string) (st : state D) :
  emit fs a (emit (other_stream fs) b st) = emit (other_stream fs) b (emit fs a st).
Proof.
  destruct st as [lg [[wo fo ro] [we fe re]]].
  destruct fs; unfold emit, transmit; simpl; destruct fo, fe; reflexivity.
Qed.

Lemma emit_this {D : Type} (fs : FILE) (text : string) (st : state D) :
  this (emit fs text st) = this st.
Proof. reflexivity. Qed.

(* ================================================================== *)
(** ** Sequences of calls *)
(* ================================================================== *)

Lemma direct_message (c : call) (st : state DefaultLogger) :
  direct (c_level c) (c_variant c) (c_format c) (c_args c) st =
  match message c with
  | Some m => Some (tt, emit (level_stream (c_level c)) m st)
  | None => None
  end.
Proof.
  rewrite direct_spec. unfold message.
  destruct (formatted (c_format c) (c_args c)); reflexivity.
Qed.

Lemma transcript_defined (fs fs' : FILE) (cs : list call) (t : string) :
  transcript fs cs = Some t -> exists t', transcript fs' cs = Some t'.
Proof.
  revert t. induction cs as [|c cs IH]; intros t; simpl.
  - eauto.
  - destruct (message c) as [m|]; [|discriminate].
    destruct (transcript fs cs) as [t0|]; [|discriminate].
    destruct (IH _ eq_refl) as [t' ->]. eauto.
Qed.

(** What a sequence of calls does to one stream. *)
Lemma session_effect (fs : FILE) (cs : list call) (t : string)
      (st : state DefaultLogger) :
  transcript fs cs = Some t ->
  exists st',
    session cs st = Some (tt, st') /\
    written (stream_of fs (io st')) =
      written (stream_of fs (io st)) ++
      (if failed (stream_of fs (io st)) then "" else t) /\
    failed (stream_of fs (io st')) = failed (stream_of fs (io st)) /\
    this st' = this st.
Proof.
  revert t st. induction cs as [|c cs IH]; intros t st; cbn [transcript session].
  - intros [= <-]. exists st. repeat split.
    destruct (failed (stream_of fs (io st))); now rewrite append_nil_r.
  - unfold bind. rewrite direct_message.
    destruct (message c) as [m|]; [|discriminate].
    destruct (transcript fs cs) as [t0|]; [|discriminate].
    intros [= <-].
    destruct (IH t0 (emit (level_stream (c_level c)) m st) eq_refl)
      as [st' [Hrun [Hw [Hf Ht]]]].
    exists st'. split; [exact Hrun |]. split; [|split].
    + rewrite Hw, emit_failed.
      destruct (same_stream (level_stream (c_level c)) fs) eqn:Hs.
      * apply same_stream_eq in Hs. rewrite <- Hs, emit_written.
        destruct (failed (stream_of (level_stream (c_level c)) (io st)));
          now rewrite !append_assoc.
      * apply same_stream_other in Hs. now rewrite Hs, emit_other.
    + now rewrite Hf, emit_failed.
    + exact Ht.
Qed.

(** X1: a sequence of calls, each with defined formatting, sends to each
    stream the messages of the calls addressed to it, in the order of the
    calls and with nothing between them; a failed stream stays as it was;
    the failed state of the streams and the logger object do not change. *)
Theorem X1_session_appends_messages_in_order
    (cs : list call) (out err : string) (st : state DefaultLogger) :
  transcript stdout cs = Some out ->
  transcript stderr cs = Some err ->
  exists st',
    session cs st = Some (tt, st') /\
    written (on_stdout (io st')) =
      written (on_stdout (io st)) ++ (if failed (on_stdout (io st)) then "" else out) /\
    written (on_stderr (io st')) =
      written (on_stderr (io st)) ++ (if failed (on_stderr (io st)) then "" else err) /\
    failed (on_stdout (io st')) = failed (on_stdout (io st)) /\
    failed (on_stderr (io st')) = failed (on_stderr (io st)) /\
    this st' = this st.
Proof.
  intros Hout Herr.
  destruct (session_effect stdout cs out st Hout) as [st1 [Hrun1 [Hw1 [Hf1 Ht1]]]].
  destruct (session_effect stderr cs err st Herr) as [st2 [Hrun2 [Hw2 [Hf2 _]]]].
  assert (Heq : st2 = st1) by congruence. subst st2.
  exists st1. simpl in Hw1, Hw2, Hf1, Hf2. repeat split; assumption.
Qed.

Lemma X1_witness :
  exists st',
    session [mkCall Info Immediate "armed" [];
             mkCall Warn (Throttled one_second) "bat %d" [AInt 9];
             mkCall Debug Immediate "alt=%d" [AInt 120]] st_stderr_closed
      = Some (tt, st') /\
    written (on_stdout (io st')) =
      ("[mavrosflight][INFO]: armed" ++ endl) ++
      ("[mavrosflight][DEBUG]: alt=120" ++ endl) /\
    written (on_stderr (io st')) = "" /\
    failed (on_stdout (io st')) = false /\
    failed (on_stderr (io st')) = true /\
    this st' = mkDefaultLogger.
Proof.
  exact (X1_session_appends_messages_in_order
           [mkCall Info Immediate "armed" [];
            mkCall Warn (Throttled one_second) "bat %d" [AInt 9];
            mkCall Debug Immediate "alt=%d" [AInt 120]]
           (("[mavrosflight][INFO]: armed" ++ endl) ++
            ("[mavrosflight][DEBUG]: alt=120" ++ endl))
           ("[mavrosflight][WARN]: bat 9" ++ endl)
           st_stderr_closed eq_refl eq_refl).
Defined.

(** X2: two calls whose levels write to different streams can be made in
    either order: the result is the same, also where one of them is
    undefined. *)
Theorem X2_calls_on_different_streams_commute
    (L1 L2 : Level) (v1 v2 : variant) (fmt1 fmt2 : string) (args1 args2 : list Arg)
    (st : state DefaultLogger) :
  level_stream L1 <> level_stream L2 ->
  (direct L1 v1 fmt1 args1 ;;; direct L2 v2 fmt2 args2) st =
  (direct L2 v2 fmt2 args2 ;;; direct L1 v1 fmt1 args1) st.
Proof.
  intros Hne. unfold bind.
  rewrite (direct_spec L1 v1 fmt1 args1 st), (direct_spec L2 v2 fmt2 args2 st).
  destruct (formatted fmt1 args1) as [b1|] eqn:H1;
    destruct (formatted fmt2 args2) as [b2|] eqn:H2;
    rewrite ?direct_spec, ?H1, ?H2; try reflexivity.
  assert (H : level_stream L2 = other_stream (level_stream L1)).
  { destruct (level_stream L1), (level_stream L2); simpl; congruence. }
  rewrite H, emit_commute. reflexivity.
Qed.

Lemma X2_witness :
  (direct Info Immediate "up" [] ;;; direct Error Immediate "e%d" [AInt 7]) st_open =
  (direct Error Immediate "e%d" [AInt 7] ;;; direct Info Immediate "up" []) st_open.
Proof.
  apply (X2_calls_on_different_streams_commute Info Error Immediate Immediate
           "up" "e%d" [] [AInt 7] st_open).
  discriminate.
Defined.

(** X3: on an open stream the effect of a call tells its level and its
    formatted message apart from those of every other call: two calls that
    leave the same state have the same level and the same message body. *)
Theorem X3_effect_determines_level_and_body
    (L1 L2 : Level) (v1 v2 : variant) (fmt1 fmt2 : string) (args1 args2 : list Arg)
    (b1 b2 : string) (st : state DefaultLogger) :
  formatted fmt1 args1 = Some b1 ->
  formatted fmt2 args2 = Some b2 ->
  failed (stream_of (level_stream L1) (io st)) = false ->
  direct L1 v1 fmt1 args1 st = direct L2 v2 fmt2 args2 st ->
  L1 = L2 /\ b1 = b2.
Proof.
  intros H1 H2 Hopen. rewrite !direct_spec, H1, H2. intros Hst.
  assert (Hm : tag L1 ++ b1 ++ endl = tag L2 ++ b2 ++ endl).
  { apply (f_equal (fun r => match r with
                             | Some (_, s) => written (stream_of (level_stream L1) (io s))
                             | None => EmptyString
                             end)) in Hst.
    cbv beta iota in Hst. rewrite emit_written, Hopen in Hst.
    destruct (same_stream (level_stream L2) (level_stream L1)) eqn:Hs.
    - apply same_stream_eq in Hs. rewrite Hs, emit_written, Hopen in Hst.
      now apply append_inj_l in Hst.
    - apply same_stream_other in Hs. rewrite Hs, emit_other in Hst.
      rewrite <- (append_nil_r (written _)) in Hst at 2.
      apply append_inj_l in Hst. destruct L1; discriminate Hst. }
  destruct L1, L2; try discriminate Hm;
    (split; [reflexivity |]);
    apply append_inj_l in Hm; now apply append_inj_r in Hm.
Qed.

Lemma X3_witness :
  Warn = Warn /\ "x=5" = "x=5".
Proof.
  apply (X3_effect_determines_level_and_body Warn Warn Immediate
           (Throttled one_second) "x=%d" "x=%s" [AInt 5] [AStr "5"] "x=5" "x=5" st_open);
    reflexivity.
Defined.

(* ================================================================== *)
(** ** One [fprintf] or three *)
(* ================================================================== *)

Lemma formatted_endl (args : list Arg) : formatted endl args = Some endl.
Proof. reflexivity. Qed.

(** X4: the single [fprintf] of [_log], on the tag, the caller's template
    and the line feed put together, does what three writes in a row do: the
    tag, then the template formatted with the arguments, then the line
    feed.  The tag takes no argument from the template, and the two agree
    also where the formatting is undefined and where the stream has
    failed. *)
Theorem X4_one_write_is_three
    (L : Level) (v : variant) (fmt : string) (args : list Arg)
    (st : state DefaultLogger) :
  direct L v fmt args st = write_in_parts (level_stream L) (tag L) fmt args st.
Proof.
  rewrite direct_spec. unfold write_in_parts, bind, libc, ret, fprintf.
  assert (Htag : formatted (tag L) [] = Some (tag L))
    by (apply formatted_plain; destruct L; reflexivity).
  rewrite Htag.
  destruct (transmit (level_stream L) (tag L) (io st)) as [r1 w1] eqn:E1.
  cbn [this io].
  destruct (formatted fmt args) as [body|]; [|reflexivity].
  destruct (transmit (level_stream L) body w1) as [r2 w2] eqn:E2.
  cbn [this io]. rewrite formatted_endl.
  destruct (transmit (level_stream L) endl w2) as [r3 w3] eqn:E3.
  cbn [this io].
  rewrite <- emit_app, <- emit_app. unfold emit. cbn [this io].
  rewrite E1. cbn [snd]. rewrite E2. cbn [snd]. rewrite E3. reflexivity.
Qed.

(* ================================================================== *)
(** ** Arguments and placeholders *)
(* ================================================================== *)

Lemma convert_no_argument (r : rawspec) : convert r [] = None.
Proof.
  unfold convert, resolve, resolve_width, resolve_prec.
  destruct (r_width r), (r_prec r); reflexivity.
Qed.

Lemma substitute_no_argument (ds : list directive) :
  existsb is_placeholder ds = true -> substitute ds [] = None.
Proof.
  induction ds as [|[s|mid c] ds IH]; cbn [existsb is_placeholder substitute].
  - discriminate.
  - rewrite orb_false_l. intros H. now rewrite (IH H).
  - intros _. destruct (parse_spec mid c) as [r|]; [|reflexivity].
    now rewrite convert_no_argument.
Qed.

(** X5: a call whose template has a placeholder and that passes no argument
    is undefined: nothing stands in for the missing argument. *)
Theorem X5_placeholder_without_argument_undefined
    (L : Level) (v : variant) (ds : list directive) (st : state DefaultLogger) :
  Forall (fun d => well_formed d = true) ds ->
  existsb is_placeholder ds = true ->
  direct L v (template_of ds) [] st = None.
Proof.
  intros Hwf Hex.
  now rewrite direct_spec, (format_template _ _ Hwf), (substitute_no_argument _ Hex).
Qed.

Lemma X5_witness :
  template_of [Text "alt="; Placeholder "" "d"] = "alt=%d" /\
  direct Info Immediate "alt=%d" [] st_open = None.
Proof.
  split; [reflexivity |].
  apply (X5_placeholder_without_argument_undefined Info Immediate
           [Text "alt="; Placeholder "" "d"] st_open).
  - repeat constructor.
  - reflexivity.
Defined.

(** X6: a string passed for a plain [%s] reaches the stream as it is,
    whatever characters it holds: for a template made of text without
    ['%'], [%s] and text without ['%'], the stream of the level receives
    the tag, the first text, the string, the second text and the line feed,
    and the other stream nothing. *)
Theorem X6_string_argument_verbatim
    (L : Level) (v : variant) (pre post s : string) (st : state DefaultLogger) :
  char_in "%" pre = false ->
  char_in "%" post = false ->
  exists st',
    direct L v (pre ++ "%s" ++ post) [AStr s] st = Some (tt, st') /\
    written (stream_of (level_stream L) (io st')) =
      written (stream_of (level_stream L) (io st)) ++
      (if failed (stream_of (level_stream L) (io st)) then ""
       else tag L ++ (pre ++ s ++ post) ++ endl) /\
    stream_of (other_stream (level_stream L)) (io st') =
      stream_of (other_stream (level_stream L)) (io st).
Proof.
  intros Hpre Hpost.
  assert (Hwf : Forall (fun d => well_formed d = true)
                  [Text pre; Placeholder "" "s"; Text post]).
  { repeat constructor; cbn [well_formed]; now apply negb_true_iff. }
  pose proof (format_template _ [AStr s] Hwf) as H.
  cbn [template_of directive_text] in H. rewrite append_nil_r in H.
  change (String "%" ("" ++ "s") ++ post) with ("%s" ++ post) in H.
  apply direct_effect. rewrite H. cbn. now rewrite append_nil_r.
Qed.

Lemma X6_witness :
  exists st',
    direct Warn Immediate ("got <" ++ "%s" ++ ">") [AStr "50% \n"] st_open =
      Some (tt, st') /\
    written (on_stderr (io st')) = "[mavrosflight][WARN]: got <50% \n>" ++ endl /\
    on_stdout (io st') = on_stdout (io st_open).
Proof.
  exact (X6_string_argument_verbatim Warn Immediate "got <" ">" "50% \n" st_open
           eq_refl eq_refl).
Defined.

(** X7: arguments that follow those the template converts are ignored,
    whatever the template: the call does what it does without them. *)
Theorem X7_arguments_past_the_template_ignored
    (L : Level) (v : variant) (fmt : string) (args extra : list Arg) (body : string)
    (st : state DefaultLogger) :
  formatted fmt args = Some body ->
  direct L v fmt (args ++ extra)%list st = direct L v fmt args st /\
  direct L v fmt (args ++ extra)%list st =
    Some (tt, emit (level_stream L) (tag L ++ body ++ endl) st).
Proof.
  intros Hbody.
  rewrite !direct_spec, (format_surplus _ _ extra _ Hbody), Hbody. split; reflexivity.
Qed.

Lemma X7_witness :
  direct Info Immediate "alt=%d" ([AInt 120] ++ [AStr "m"; AInt 3])%list st_open =
    direct Info Immediate "alt=%d" [AInt 120] st_open /\
  direct Info Immediate "alt=%d" ([AInt 120] ++ [AStr "m"; AInt 3])%list st_open =
    Some (tt, emit stdout (tag Info ++ "alt=120" ++ endl) st_open).
Proof.
  apply (X7_arguments_past_the_template_ignored Info Immediate "alt=%d"
           [AInt 120] [AStr "m"; AInt 3] "alt=120" st_open).
  reflexivity.
Defined.

(** X8: a template that is complete and is followed by one more ['%'] makes
    the call undefined: the line feed [_log] appends lands inside the
    conversion specification the ['%'] opens. *)
Theorem X8_trailing_percent_undefined
    (L : Level) (v : variant) (fmt : string) (args : list Arg) (body : string)
    (st : state DefaultLogger) :
  formatted fmt args = Some body ->
  direct L v (fmt ++ "%") args st = None.
Proof.
  intros Hbody. rewrite direct_spec.
  unfold formatted, format_chunks in *. rewrite run_app.
  destruct (run fmt (Copying, args)) as [[o [[|mid] rest]]|]; try discriminate.
  reflexivity.
Qed.

Lemma X8_witness : direct Info Immediate ("battery 100" ++ "%") [] st_open = None.
Proof.
  apply (X8_trailing_percent_undefined Info Immediate "battery 100" []
           "battery 100" st_open).
  reflexivity.
Defined.

(* ================================================================== *)
(** ** Lines *)
(* ================================================================== *)

Lemma forallb_without (c : ascii) (l : list string) :
  forallb (fun s => negb (char_in c s)) l = true ->
  Forall (fun s => char_in c s = false) l.
Proof.
  induction l as [|s l IH]; simpl; intros H; constructor.
  - apply andb_true_iff in H as [H _]. now apply negb_true_iff.
  - apply andb_true_iff in H as [_ H]. auto.
Qed.

(** The message of a line-free call has one line feed, its last character. *)
Lemma line_free_message (c : call) :
  line_free c = true ->
  exists m, message c = Some m /\ count_char LF m = 1.
Proof.
  unfold line_free, message, formatted.
  destruct (format_chunks (c_format c) (c_args c)) as [o|] eqn:Ho; [|discriminate].
  intros H. apply andb_true_iff in H as [Hfmt Hconv].
  apply negb_true_iff in Hfmt. apply forallb_without in Hconv.
  pose proof (format_chunks_without LF _ _ _ Ho Hfmt Hconv) as Hbody.
  eexists. split; [reflexivity |].
  rewrite !count_char_app, (count_char_absent _ _ Hbody).
  destruct (c_level c); reflexivity.
Qed.

Lemma line_free_transcript (fs : FILE) (cs : list call) :
  forallb line_free cs = true ->
  exists t, transcript fs cs = Some t /\
            count_char LF t = List.length (addressed_to fs cs).
Proof.
  induction cs as [|c cs IH]; cbn [forallb transcript addressed_to filter].
  - intros _. exists EmptyString. split; reflexivity.
  - intros H. apply andb_true_iff in H as [Hc Hcs].
    destruct (line_free_message c Hc) as [m [-> Hm]].
    destruct (IH Hcs) as [t [-> Ht]].
    eexists. split; [reflexivity |].
    destruct (same_stream (level_stream (c_level c)) fs).
    + rewrite count_char_app, Hm, Ht. reflexivity.
    + exact Ht.
Qed.

(** X10: one line per call.  After a sequence of calls whose templates and
    converted arguments hold no line feed, an open stream has as many more
    line feeds as calls were addressed to it. *)
Theorem X10_one_line_per_call
    (fs : FILE) (cs : list call) (st : state DefaultLogger) :
  forallb line_free cs = true ->
  failed (stream_of fs (io st)) = false ->
  exists st',
    session cs st = Some (tt, st') /\
    count_char LF (written (stream_of fs (io st'))) =
      count_char LF (written (stream_of fs (io st))) + List.length (addressed_to fs cs).
Proof.
  intros Hfree Hopen.
  destruct (line_free_transcript fs cs Hfree) as [t [Ht Hcount]].
  destruct (session_effect fs cs t st Ht) as [st' [Hrun [Hw _]]].
  exists st'. split; [exact Hrun |].
  now rewrite Hw, Hopen, count_char_app, Hcount.
Qed.

Lemma X10_witness :
  exists st',
    session [mkCall Warn Immediate "bat %d" [AInt 9];
             mkCall Info Immediate "armed" [];
             mkCall Fatal (Throttled one_second) "%s" [AStr "down"]] st_open
      = Some (tt, st') /\
    count_char LF (written (stream_of stderr (io st'))) = 2.
Proof.
  exact (X10_one_line_per_call stderr
           [mkCall Warn Immediate "bat %d" [AInt 9];
            mkCall Info Immediate "armed" [];
            mkCall Fatal (Throttled one_second) "%s" [AStr "down"]]
           st_open eq_refl eq_refl).
Defined.

(** X11: a call adds one line feed to those of the formatted message and
    removes none: line feeds in the template or in an argument go through,
    so such a call writes more than one line.  An open stream of the level
    gains the line feeds of the formatted message and one more. *)
Theorem X11_line_feeds_pass_through
    (L : Level) (v : variant) (fmt : string) (args : list Arg) (body : string)
    (st : state DefaultLogger) :
  formatted fmt args = Some body ->
  exists st',
    direct L v fmt args st = Some (tt, st') /\
    count_char LF (written (stream_of (level_stream L) (io st'))) =
      count_char LF (written (stream_of (level_stream L) (io st))) +
      (if failed (stream_of (level_stream L) (io st)) then 0
       else S (count_char LF body)).
Proof.
  intros Hbody.
  destruct (direct_effect L v fmt args body st Hbody) as [st' [Hrun [Hw _]]].
  exists st'. split; [exact Hrun |].
  rewrite Hw, count_char_app.
  destruct (failed (stream_of (level_stream L) (io st))); [reflexivity |].
  rewrite !count_char_app. destruct L; simpl; lia.
Qed.

Lemma X11_witness :
  exists st',
    direct Error Immediate "%s" [AStr ("one" ++ endl ++ "two")] st_open =
      Some (tt, st') /\
    count_char LF (written (on_stderr (io st'))) = 2.
Proof.
  exact (X11_line_feeds_pass_through Error Immediate "%s"
           [AStr ("one" ++ endl ++ "two")] ("one" ++ endl ++ "two") st_open eq_refl).
Defined.
